(** * The EMU spectrogram plugin of wavesurfer.js: render scheduling and signal windowing

    A shallow embedding of [src/plugins/spectrogram_emu.ts]: the plugin's
    fields are a record, its methods are computations in a small monad that
    threads the plugin, logs the calls made to the browser and to the drawing
    worker, and can throw.

    Numbers.  A JavaScript number is an IEEE double.  Here a finite number is
    a rational, and every addition, subtraction, multiplication and division
    rounds its exact result to the nearest double, ties to even, with
    overflow to the infinities and gradual underflow; the three special
    values are kept, so that division by zero and comparison with NaN behave
    as in the engine.  The sign of zero is not modelled (a zero divisor is
    taken as +0, which is what DOM lengths give). *)

From Stdlib Require Import ZArith QArith Qround Qminmax Qpower Qreduction List Bool String Lia.
Import ListNotations.
Local Open Scope Z_scope.

(** ** Numbers *)

Module Num.

Inductive number : Type :=
| Fin (q : Q)
| PInf
| NInf
| NaN.

(** An integer as a number; the integers the code meets (indices, lengths,
    constants) lie within 2^53 and are doubles. *)
Definition of_Z (z : Z) : number := Fin (inject_Z z).
Definition of_nat (n : nat) : number := of_Z (Z.of_nat n).

(** *** Rounding to a double *)

Definition two_to (e : Z) : Q := Qpower 2 e.

(** For [q > 0], the exponent [e] with [2^e <= q < 2^(e+1)]. *)
Definition binade (q : Q) : Z :=
  if Qle_bool 1 q then Z.log2 (Qfloor q) else - Z.log2_up (Qceiling (/ q)).

(** The nearest integer, the even one of two that are equally near. *)
Definition nearest_even (x : Q) : Z :=
  let f := Qfloor x in
  match (x - inject_Z f ?= 1 # 2)%Q with
  | Lt => f
  | Gt => f + 1
  | Eq => if Z.even f then f else f + 1
  end.

(** For [q > 0], the nearest multiple of the spacing of the doubles around
    [q]: 53 significant bits, and from [2^-1022] down the fixed spacing
    [2^-1074] of the subnormal numbers. *)
Definition round_pos (q : Q) : Q :=
  let u := two_to (Z.max (binade q) (-1022) - 52) in
  inject_Z (nearest_even (q / u)) * u.

(** The double nearest to [q]; what rounds to [2^1024] or beyond is an
    infinity. *)
Definition round64 (q : Q) : number :=
  match (q ?= 0)%Q with
  | Eq => Fin 0
  | Gt =>
      let r := round_pos q in
      if Qle_bool (two_to 1024) r then PInf else Fin (Qred r)
  | Lt =>
      let r := round_pos (- q) in
      if Qle_bool (two_to 1024) r then NInf else Fin (Qred (- r))
  end.

(** A decimal literal of the source denotes the nearest double. *)
Definition lit (q : Q) : number := round64 q.

(** [q] is a double. *)
Definition is_double (q : Q) : Prop := round64 q = Fin (Qred q).

(** [n] is a number that is at least the integer [z]; NaN is not. *)
Definition at_least (z : Z) (n : number) : Prop :=
  match n with
  | Fin r => (inject_Z z <= r)%Q
  | PInf => True
  | _ => False
  end.

(** *** Arithmetic *)

(** The sign of a number that is not NaN; zero is [Eq]. *)
Definition sgn (a : number) : comparison :=
  match a with
  | Fin q => (q ?= 0)%Q
  | PInf => Gt
  | NInf => Lt
  | NaN => Eq
  end.

Definition sgn_mul (c d : comparison) : comparison :=
  match c, d with
  | Eq, _ | _, Eq => Eq
  | Lt, Lt | Gt, Gt => Gt
  | _, _ => Lt
  end.

(** An infinity of the given sign; the sign [Eq] stands for 0 * Infinity and
    0 / 0, which are NaN. *)
Definition inf_of (c : comparison) : number :=
  match c with
  | Gt => PInf
  | Lt => NInf
  | Eq => NaN
  end.

Definition neg (a : number) : number :=
  match a with
  | Fin q => Fin (- q)
  | PInf => NInf
  | NInf => PInf
  | NaN => NaN
  end.

Definition add (a b : number) : number :=
  match a, b with
  | NaN, _ | _, NaN => NaN
  | Fin x, Fin y => round64 (x + y)
  | PInf, NInf | NInf, PInf => NaN
  | PInf, _ | _, PInf => PInf
  | NInf, _ | _, NInf => NInf
  end.

Definition sub (a b : number) : number := add a (neg b).

Definition mul (a b : number) : number :=
  match a, b with
  | NaN, _ | _, NaN => NaN
  | Fin x, Fin y => round64 (x * y)
  | _, _ => inf_of (sgn_mul (sgn a) (sgn b))
  end.

Definition div (a b : number) : number :=
  match a, b with
  | NaN, _ | _, NaN => NaN
  | Fin x, Fin y => if Qeq_bool y 0 then inf_of (sgn a) else round64 (x / y)
  | Fin _, _ => Fin 0
  | _, Fin y => inf_of (sgn_mul (sgn a) (if Qeq_bool y 0 then Gt else sgn b))
  | _, _ => NaN
  end.

(** [a < b]; false as soon as one side is NaN. *)
Definition ltb (a b : number) : bool :=
  match a, b with
  | Fin x, Fin y => match (x ?= y)%Q with Lt => true | _ => false end
  | NInf, Fin _ | NInf, PInf | Fin _, PInf => true
  | _, _ => false
  end.

(** [a > b] is [b < a]. *)
Definition gtb (a b : number) : bool := ltb b a.

(** [a == b] on numbers; NaN equals nothing. *)
Definition eqb (a b : number) : bool :=
  match a, b with
  | Fin x, Fin y => Qeq_bool x y
  | PInf, PInf | NInf, NInf => true
  | _, _ => false
  end.

(** Truthiness of a number: 0 and NaN are falsy. *)
Definition truthy (a : number) : bool :=
  match a with
  | Fin q => negb (Qeq_bool q 0)
  | NaN => false
  | _ => true
  end.

(** [Math.floor]; the floor of a double is a double. *)
Definition Math_floor (a : number) : number :=
  match a with
  | Fin q => of_Z (Qfloor q)
  | _ => a
  end.

(** [Math.pow(2, e)] for an integer [e >= 0]: exact up to the largest binary
    exponent of a double, Infinity beyond it. *)
Definition Math_pow2 (e : nat) : number :=
  if (Z.of_nat e <? 1024) then of_Z (2 ^ Z.of_nat e) else PInf.

End Num.

Export Num.

Declare Scope num_scope.
Delimit Scope num_scope with num.
Bind Scope num_scope with number.
Infix "+" := Num.add : num_scope.
Infix "-" := Num.sub : num_scope.
Infix "*" := Num.mul : num_scope.
Infix "/" := Num.div : num_scope.
Infix "<?" := Num.ltb : num_scope.
Infix ">?" := Num.gtb (at level 70) : num_scope.
Infix "==?" := Num.eqb (at level 70) : num_scope.

Coercion Num.of_Z : Z >-> number.

(** ** Typed arrays *)

(** A sample of a [Float32Array]; a fresh array is filled with zeros. *)
Definition sample : Type := Q.

(** Truncation toward zero, the integer part taken by [ToIntegerOrInfinity]. *)
Definition Qtrunc (q : Q) : Z := Z.quot (Qnum q) (Zpos (Qden q)).

(** The index that [subarray] derives from an argument, for an array of
    [len] elements: NaN counts as 0, a negative value counts from the end,
    and the result is clamped to [0, len]. *)
Definition relativeIndex (len : Z) (a : number) : Z :=
  match a with
  | NaN => 0
  | PInf => len
  | NInf => 0
  | Fin q =>
      let r := Qtrunc q in
      if r <? 0 then Z.max (len + r) 0 else Z.min r len
  end.

(** [l.subarray(b, e)] *)
Definition subarray {A : Type} (l : list A) (b e : number) : list A :=
  let len := Z.of_nat (List.length l) in
  let beginIndex := relativeIndex len b in
  let endIndex := relativeIndex len e in
  firstn (Z.to_nat (Z.max (endIndex - beginIndex) 0)) (skipn (Z.to_nat beginIndex) l).

(** [target.set(source, offset)]: the elements of [source] overwrite those of
    [target] from [offset] on; [None] is the RangeError raised when they do
    not fit. *)
Definition typed_set {A : Type} (target source : list A) (offset : nat) : option (list A) :=
  if (offset + List.length source <=? List.length target)%nat
  then Some (firstn offset target ++ source ++ skipn (offset + List.length source) target)
  else None.

(** ** FFT size *)

(** The loop of [calcClosestPowerOf2Gt]: [curExp] grows while
    [Math.pow(2, curExp) < num]; the result is the exponent at exit, or
    [None] when the fuel runs out first. *)
Fixpoint powerLoop (fuel : nat) (num : number) (curExp : nat) : option nat :=
  match fuel with
  | O => None
  | S fuel' =>
      if (Math_pow2 curExp <? num)%num
      then powerLoop fuel' num (S curExp)
      else Some curExp
  end.

(** 1025 rounds always suffice: [Math.pow(2, 1024)] is Infinity, which is
    below nothing (lemma [powerLoop_total]). *)
Definition powerLoop_fuel : nat := 1025.

Definition calcClosestPowerOf2Gt (num : number) : number :=
  match powerLoop powerLoop_fuel num 0 with
  | Some curExp => Math_pow2 curExp
  | None => NaN
  end.

(** Lines 371-374 of [render]: the FFT size of a request. *)
Definition fftN_of (sampleRate windowSizeInSecs : number) : number :=
  let fftN := calcClosestPowerOf2Gt (sampleRate * windowSizeInSecs) in
  if (fftN <? 512)%num then of_Z 512 else fftN.

(** ** The plugin and its surroundings *)

(** The options after [Object.assign({}, defaultOptions, options)].
    [upperFreq] has no default: [None] is the option left blank.  The
    placement options ([container], [insertPosition]) only drive DOM
    insertion and are left out. *)
Record Options : Type := {
  height : number;
  channel : nat;
  windowSizeInSecs : number;
  upperFreq : option number;
  lowerFreq : number;
  alpha : number;
  window : string;
  dynRangeInDB : number;
  preEmphasisFilterFactor : number;
  transparency : number;
  drawHeatMapColors : bool;
  heatMapColorAnchors : list (list Z);
  invert : bool
}.

Definition defaultOptions : Options := {|
  height := of_Z 100;
  channel := 0;
  windowSizeInSecs := lit (5 # 1000);
  upperFreq := None;
  lowerFreq := of_Z 0;
  alpha := lit (16 # 100);
  window := "hamming";
  dynRangeInDB := of_Z 70;
  preEmphasisFilterFactor := lit (97 # 100);
  transparency := of_Z 255;
  drawHeatMapColors := false;
  heatMapColorAnchors := [[255; 0; 0]; [0; 255; 0]; [0; 0; 0]];
  invert := false
|}.

Definition with_upperFreq (u : option number) (o : Options) : Options := {|
  height := height o;
  channel := channel o;
  windowSizeInSecs := windowSizeInSecs o;
  upperFreq := u;
  lowerFreq := lowerFreq o;
  alpha := alpha o;
  window := window o;
  dynRangeInDB := dynRangeInDB o;
  preEmphasisFilterFactor := preEmphasisFilterFactor o;
  transparency := transparency o;
  drawHeatMapColors := drawHeatMapColors o;
  heatMapColorAnchors := heatMapColorAnchors o;
  invert := invert o
|}.

(** The decoded audio: every channel holds [ab_length] samples. *)
Record AudioBuffer : Type := {
  ab_length : nat;
  sampleRate : number;
  channelData : list (list sample)
}.

(** What a tick reads from outside the plugin: the scroll container of the
    wavesurfer renderer, the decoded audio, the layout size of the wrapper
    and the pixel ratio of the window. *)
Record Host : Type := {
  scrollLeft : number;
  scrollWidth : number;
  clientWidth : number;
  decodedData : option AudioBuffer;
  offsetHeight : Z;
  offsetWidth : Z;
  devicePixelRatio : number
}.

(** An [ImageData] object.  [img_id] is its identity: the number of the
    allocation that made it. *)
Record ImageData : Type := {
  img_id : nat;
  img_width : Z;
  img_height : Z;
  img_data : list Z
}.

Record Canvas : Type := {
  canvas_width : Z;
  canvas_height : Z
}.

(** The message of [spectroWorker.tell]. *)
Record Request : Type := {
  rq_windowSizeInSecs : number;
  rq_fftN : number;
  rq_alpha : number;
  rq_upperFreq : number;
  rq_lowerFreq : number;
  rq_samplesPerPxl : number;
  rq_window : Z;
  rq_imgWidth : Z;
  rq_imgHeight : Z;
  rq_dynRangeInDB : number;
  rq_pixelRatio : number;
  rq_sampleRate : number;
  rq_transparency : number;
  rq_audioBuffer : list sample;
  rq_audioBufferChannels : Z;
  rq_drawHeatMapColors : bool;
  rq_preEmphasisFilterFactor : number;
  rq_heatMapColorAnchors : list (list Z);
  rq_invert : bool
}.

(** A reference to an object the plugin only calls into. *)
Inductive ref : Type := Ref.

(** The fields of a [SpectrogramEmuPlugin] that its methods read.
    [allocated] counts the [ImageData] objects made so far and gives the next
    one its identity. *)
Record Plugin : Type := {
  options : option Options;
  windowNum : Z;
  wrapper : option ref;
  canvas : Canvas;
  imageData : ImageData;
  spectroWorker : option ref;
  update_needed : bool;
  old_sS : number;
  old_eS : number;
  terminated : bool;
  wavesurfer : option ref;
  allocated : nat
}.

(** The calls a method makes to the outside, in order. *)
Inductive effect : Type :=
| RequestAnimationFrame
| Tell (rq : Request)
| PutImageData (img : ImageData)
| Kill
| UnAll
| WrapperRemove
| SuperDestroy.

Inductive error : Type :=
| TypeError
| RangeError
| IndexSizeError
| Error (msg : string).

(** How a method ends. *)
Inductive completion (A : Type) : Type :=
| Normal (a : A)
| Throw (e : error).
Arguments Normal {A} a.
Arguments Throw {A} e.

(** A method body: from the plugin before to how it ended, the plugin after
    (field writes made before a throw stay), and the calls made. *)
Definition M (A : Type) : Type := Plugin -> completion A * Plugin * list effect.

Definition ret {A : Type} (a : A) : M A := fun s => (Normal a, s, []).

Definition bind {A B : Type} (m : M A) (f : A -> M B) : M B :=
  fun s =>
    match m s with
    | (Normal a, s1, e1) =>
        match f a s1 with
        | (r, s2, e2) => (r, s2, e1 ++ e2)
        end
    | (Throw e, s1, e1) => (Throw e, s1, e1)
    end.

Definition throw {A : Type} (e : error) : M A := fun s => (Throw e, s, []).
Definition this : M Plugin := fun s => (Normal s, s, []).
Definition modify (f : Plugin -> Plugin) : M unit := fun s => (Normal tt, f s, []).
Definition call (e : effect) : M unit := fun s => (Normal tt, s, [e]).

Notation "x <- m ;; k" := (bind m (fun x => k))
  (at level 61, m at next level, right associativity).
Notation "m ;; k" := (bind m (fun _ => k))
  (at level 61, right associativity).

(** Reading a property of a field that may hold [null]. *)
Definition deref {A : Type} (o : option A) : M A :=
  match o with
  | Some a => ret a
  | None => throw TypeError
  end.

Definition orThrow {A : Type} (e : error) (o : option A) : M A :=
  match o with
  | Some a => ret a
  | None => throw e
  end.

(** Field writes. *)
Definition set_options (v : option Options) (s : Plugin) : Plugin :=
  {| options := v; windowNum := windowNum s; wrapper := wrapper s; canvas := canvas s;
     imageData := imageData s; spectroWorker := spectroWorker s;
     update_needed := update_needed s; old_sS := old_sS s; old_eS := old_eS s;
     terminated := terminated s; wavesurfer := wavesurfer s; allocated := allocated s |}.
Definition set_wrapper (v : option ref) (s : Plugin) : Plugin :=
  {| options := options s; windowNum := windowNum s; wrapper := v; canvas := canvas s;
     imageData := imageData s; spectroWorker := spectroWorker s;
     update_needed := update_needed s; old_sS := old_sS s; old_eS := old_eS s;
     terminated := terminated s; wavesurfer := wavesurfer s; allocated := allocated s |}.
Definition set_canvas (v : Canvas) (s : Plugin) : Plugin :=
  {| options := options s; windowNum := windowNum s; wrapper := wrapper s; canvas := v;
     imageData := imageData s; spectroWorker := spectroWorker s;
     update_needed := update_needed s; old_sS := old_sS s; old_eS := old_eS s;
     terminated := terminated s; wavesurfer := wavesurfer s; allocated := allocated s |}.
Definition set_imageData (v : ImageData) (s : Plugin) : Plugin :=
  {| options := options s; windowNum := windowNum s; wrapper := wrapper s; canvas := canvas s;
     imageData := v; spectroWorker := spectroWorker s;
     update_needed := update_needed s; old_sS := old_sS s; old_eS := old_eS s;
     terminated := terminated s; wavesurfer := wavesurfer s; allocated := allocated s |}.
Definition set_allocated (v : nat) (s : Plugin) : Plugin :=
  {| options := options s; windowNum := windowNum s; wrapper := wrapper s; canvas := canvas s;
     imageData := imageData s; spectroWorker := spectroWorker s;
     update_needed := update_needed s; old_sS := old_sS s; old_eS := old_eS s;
     terminated := terminated s; wavesurfer := wavesurfer s; allocated := v |}.
Definition set_spectroWorker (v : option ref) (s : Plugin) : Plugin :=
  {| options := options s; windowNum := windowNum s; wrapper := wrapper s; canvas := canvas s;
     imageData := imageData s; spectroWorker := v;
     update_needed := update_needed s; old_sS := old_sS s; old_eS := old_eS s;
     terminated := terminated s; wavesurfer := wavesurfer s; allocated := allocated s |}.
Definition set_update_needed (v : bool) (s : Plugin) : Plugin :=
  {| options := options s; windowNum := windowNum s; wrapper := wrapper s; canvas := canvas s;
     imageData := imageData s; spectroWorker := spectroWorker s;
     update_needed := v; old_sS := old_sS s; old_eS := old_eS s;
     terminated := terminated s; wavesurfer := wavesurfer s; allocated := allocated s |}.
Definition set_old_sS (v : number) (s : Plugin) : Plugin :=
  {| options := options s; windowNum := windowNum s; wrapper := wrapper s; canvas := canvas s;
     imageData := imageData s; spectroWorker := spectroWorker s;
     update_needed := update_needed s; old_sS := v; old_eS := old_eS s;
     terminated := terminated s; wavesurfer := wavesurfer s; allocated := allocated s |}.
Definition set_old_eS (v : number) (s : Plugin) : Plugin :=
  {| options := options s; windowNum := windowNum s; wrapper := wrapper s; canvas := canvas s;
     imageData := imageData s; spectroWorker := spectroWorker s;
     update_needed := update_needed s; old_sS := old_sS s; old_eS := v;
     terminated := terminated s; wavesurfer := wavesurfer s; allocated := allocated s |}.
Definition set_terminated (v : bool) (s : Plugin) : Plugin :=
  {| options := options s; windowNum := windowNum s; wrapper := wrapper s; canvas := canvas s;
     imageData := imageData s; spectroWorker := spectroWorker s;
     update_needed := update_needed s; old_sS := old_sS s; old_eS := old_eS s;
     terminated := v; wavesurfer := wavesurfer s; allocated := allocated s |}.
Definition set_wavesurfer (v : option ref) (s : Plugin) : Plugin :=
  {| options := options s; windowNum := windowNum s; wrapper := wrapper s; canvas := canvas s;
     imageData := imageData s; spectroWorker := spectroWorker s;
     update_needed := update_needed s; old_sS := old_sS s; old_eS := old_eS s;
     terminated := terminated s; wavesurfer := v; allocated := allocated s |}.

(** ** The methods *)

(** [spectrCc.createImageData(w, h)]: an IndexSizeError when a dimension
    is zero; otherwise a new object of the absolute dimensions, transparent
    black, four bytes a pixel. *)
Definition createImageData (w h : Z) : M ImageData :=
  if (w =? 0) || (h =? 0) then throw IndexSizeError
  else
    s <- this ;;
    modify (set_allocated (S (allocated s))) ;;
    ret {| img_id := allocated s; img_width := Z.abs w; img_height := Z.abs h;
           img_data := repeat 0 (Z.to_nat (Z.abs w * Z.abs h * 4)) |}.

(** [new Uint8ClampedArray(img)]: every value clamped to a byte. *)
Definition Uint8ClampedArray (img : list Z) : list Z :=
  map (fun v => Z.max 0 (Z.min 255 v)) img.

Definition with_data (d : list Z) (i : ImageData) : ImageData :=
  {| img_id := img_id i; img_width := img_width i; img_height := img_height i;
     img_data := d |}.

Definition requestAnimationFrame : M unit := call RequestAnimationFrame.

(** The [switch] of the constructor. *)
Definition windowNum_of (w : string) : option Z :=
  if String.eqb w "bartlett" then Some 1
  else if String.eqb w "bartletthann" then Some 2
  else if String.eqb w "blackman" then Some 3
  else if String.eqb w "cosine" then Some 4
  else if String.eqb w "gauss" then Some 5
  else if String.eqb w "hamming" then Some 6
  else if String.eqb w "hann" then Some 7
  else if String.eqb w "lanczos" then Some 8
  else if String.eqb w "rectangular" then Some 9
  else if String.eqb w "triangular" then Some 10
  else None.

(** A canvas element starts 300 by 150. *)
Definition new_canvas : Canvas := {| canvas_width := 300; canvas_height := 150 |}.

(** The fields as the constructor leaves them, [n] being the window number. *)
Definition fresh_plugin (opts : Options) (n : Z) : Plugin := {|
  options := Some opts;
  windowNum := n;
  wrapper := Some Ref;
  canvas := new_canvas;
  imageData := {| img_id := 0;
                  img_width := canvas_width new_canvas;
                  img_height := canvas_height new_canvas;
                  img_data := repeat 0 (Z.to_nat (canvas_width new_canvas
                                                   * canvas_height new_canvas * 4)) |};
  spectroWorker := Some Ref;
  update_needed := false;
  old_sS := of_Z (-1);
  old_eS := of_Z (-1);
  terminated := false;
  wavesurfer := None;
  allocated := 1
|}.

(** The constructor, from the merged options. *)
Definition constructor (opts : Options) : completion Plugin :=
  match windowNum_of (window opts) with
  | None => Throw (Error ("Unknown window type: " ++ window opts))
  | Some n => Normal (fresh_plugin opts n)
  end.

(** The callback given to [spectroWorker.says], run with the values of
    [event.img]. *)
Definition onResponse (img : list Z) : M unit :=
  s <- this ;;
  (if negb (img_width (imageData s) =? canvas_width (canvas s))
      || negb (img_height (imageData s) =? canvas_height (canvas s))
   then
     d <- createImageData (canvas_width (canvas s)) (canvas_height (canvas s)) ;;
     modify (set_imageData d)
   else ret tt) ;;
  let tmp := Uint8ClampedArray img in
  s <- this ;;
  d <- orThrow RangeError (typed_set (img_data (imageData s)) tmp 0) ;;
  modify (set_imageData (with_data d (imageData s))) ;;
  s <- this ;;
  call (PutImageData (imageData s)) ;;
  requestAnimationFrame.

(** The handler of the wavesurfer events 'redraw', 'scroll' and 'ready'. *)
Definition onRedraw : M unit := modify (set_update_needed true).

(** [onInit]; placing the wrapper in the document and registering the
    callbacks above leave no trace in the fields. *)
Definition onInit : M unit :=
  s <- this ;;
  match wavesurfer s with
  | None => throw (Error "WaveSurfer is not initialized")
  | Some _ => requestAnimationFrame
  end.

(** [destroy]; [util] is a field nothing reads, and its reset is left out. *)
Definition destroy : M unit :=
  modify (set_terminated true) ;;
  call UnAll ;;
  modify (set_wavesurfer None) ;;
  modify (set_options None) ;;
  s <- this ;;
  match wrapper s with
  | Some _ => call WrapperRemove ;; modify (set_wrapper None)
  | None => ret tt
  end ;;
  s <- this ;;
  _ <- deref (spectroWorker s) ;;
  call Kill ;;
  modify (set_spectroWorker None) ;;
  call SuperDestroy.

(** Lines 379-392 of [render]: the visible samples with their context. *)
Definition left_padding_of (buffer : list sample) (sS windowSizeInSamples : number)
  : list sample :=
  if (sS >? windowSizeInSamples / 2)%num
  then subarray buffer (sS - windowSizeInSamples / 2)%num sS
  else [].

Definition right_padding_of (buffer : list sample) (eS fftN : number) : list sample :=
  if (eS + fftN / 2 - 1 <? of_nat (List.length buffer))%num
  then subarray buffer eS (eS + fftN / 2 - 1)%num
  else [].

Definition paddedSamples_of (buffer : list sample) (sS eS windowSizeInSamples fftN : number)
  : option (list sample) :=
  let data := subarray buffer sS eS in
  let left_padding := left_padding_of buffer sS windowSizeInSamples in
  let right_padding := right_padding_of buffer eS fftN in
  let paddedSamples :=
    @repeat sample 0%Q
      (List.length left_padding + List.length data + List.length right_padding) in
  match typed_set paddedSamples left_padding 0 with
  | None => None
  | Some p1 =>
      match typed_set p1 data (List.length left_padding) with
      | None => None
      | Some p2 =>
          typed_set p2 right_padding (List.length left_padding + List.length data)
      end
  end.

(** Lines 344-346 of [render]: the visible sample range. *)
Definition sampleRange (h : Host) (nS : number) : number * number :=
  (Math_floor (scrollLeft h / scrollWidth h * nS)%num,
   Math_floor ((scrollLeft h + clientWidth h) / scrollWidth h * nS)%num).

(** Lines 394-397 of [render]. *)
Definition upperFreq_of (sampleRate : number) (opts : Options) : number :=
  let given := upperFreq opts in
  let upperFreq := (sampleRate / 2)%num in
  match given with
  | Some u => if truthy u then u else upperFreq
  | None => upperFreq
  end.

Definition getChannelData (d : AudioBuffer) (c : nat) : M (list sample) :=
  orThrow IndexSizeError (nth_error (channelData d) c).

Definition set_canvas_height (v : Z) (s : Plugin) : Plugin :=
  set_canvas {| canvas_width := canvas_width (canvas s); canvas_height := v |} s.
Definition set_canvas_width (v : Z) (s : Plugin) : Plugin :=
  set_canvas {| canvas_width := v; canvas_height := canvas_height (canvas s) |} s.

(** One tick of the animation loop. *)
Definition render (h : Host) : M unit :=
  s <- this ;;
  if terminated s then ret tt
  else if negb (update_needed s) then requestAnimationFrame
  else
    _ <- deref (wavesurfer s) ;;
    match decodedData h with
    | None =>
        modify (set_update_needed false) ;;
        requestAnimationFrame
    | Some decoded =>
        let nS := of_nat (ab_length decoded) in
        let sS := fst (sampleRange h nS) in
        let eS := snd (sampleRange h nS) in
        if (sS ==? old_sS s)%num && (eS ==? old_eS s)%num then
          modify (set_update_needed false) ;;
          requestAnimationFrame
        else
          modify (set_update_needed false) ;;
          modify (set_old_sS sS) ;;
          modify (set_old_eS eS) ;;
          _ <- deref (wrapper s) ;;
          modify (set_canvas_height (offsetHeight h)) ;;
          modify (set_canvas_width (offsetWidth h)) ;;
          opts <- deref (options s) ;;
          buffer <- getChannelData decoded (channel opts) ;;
          let sampleRate := sampleRate decoded in
          let windowSizeInSecs := windowSizeInSecs opts in
          let fftN := fftN_of sampleRate windowSizeInSecs in
          let windowSizeInSamples := (windowSizeInSecs * sampleRate)%num in
          c <- this ;;
          let samplesPerPxl := ((eS + 1 - sS) / of_Z (canvas_width (canvas c)))%num in
          paddedSamples <-
            orThrow RangeError (paddedSamples_of buffer sS eS windowSizeInSamples fftN) ;;
          let upperFreq := upperFreq_of sampleRate opts in
          _ <- deref (spectroWorker s) ;;
          call (Tell {|
            rq_windowSizeInSecs := windowSizeInSecs;
            rq_fftN := fftN;
            rq_alpha := alpha opts;
            rq_upperFreq := upperFreq;
            rq_lowerFreq := lowerFreq opts;
            rq_samplesPerPxl := samplesPerPxl;
            rq_window := windowNum s;
            rq_imgWidth := canvas_width (canvas c);
            rq_imgHeight := canvas_height (canvas c);
            rq_dynRangeInDB := dynRangeInDB opts;
            rq_pixelRatio := devicePixelRatio h;
            rq_sampleRate := sampleRate;
            rq_transparency := transparency opts;
            rq_audioBuffer := paddedSamples;
            rq_audioBufferChannels := 1;
            rq_drawHeatMapColors := drawHeatMapColors opts;
            rq_preEmphasisFilterFactor := preEmphasisFilterFactor opts;
            rq_heatMapColorAnchors := heatMapColorAnchors opts;
            rq_invert := invert opts
          |})
    end.

(** ** Reading the outcome of a method *)

Definition result_of {A : Type} (x : completion A * Plugin * list effect) : completion A :=
  fst (fst x).
Definition plugin_of {A : Type} (x : completion A * Plugin * list effect) : Plugin :=
  snd (fst x).
Definition effects_of {A : Type} (x : completion A * Plugin * list effect) : list effect :=
  snd x.

Definition is_frame (e : effect) : bool :=
  match e with RequestAnimationFrame => true | _ => false end.
Definition is_tell (e : effect) : bool :=
  match e with Tell _ => true | _ => false end.
Definition is_put (e : effect) : bool :=
  match e with PutImageData _ => true | _ => false end.

(** The number of animation frames requested, and of requests sent to the
    worker, among the calls of a method. *)
Definition frames_in (es : list effect) : nat := List.length (filter is_frame es).
Definition tells_in (es : list effect) : nat := List.length (filter is_tell es).

(** ** The animation loop *)

(** The plugin together with what is pending around it: the animation-frame
    callbacks queued in the browser, each of which will run [render], and the
    requests the worker has not answered yet. *)
Record World : Type := {
  plugin : Plugin;
  frames : nat;
  inFlight : nat
}.

Definition after {A : Type} (x : completion A * Plugin * list effect) (frames inFlight : nat)
  : World :=
  {| plugin := plugin_of x;
     frames := frames + frames_in (effects_of x);
     inFlight := inFlight + tells_in (effects_of x) |}.

(** Modelled from the spec: the drawing worker and the base plugin, whose files
    [spectro-drawing.worker.js] and [base-plugin.js] are not among the
    sources.  The worker answers a request once ("a response handler invoked
    exactly once per request"), by running the callback of [says]; a response
    may still come after detach.  Attaching sets [wavesurfer] and runs
    [onInit] ("entered at attach time with one tick scheduled"). *)
Inductive step : World -> World -> Prop :=
| step_frame (w : World) (n : nat) (h : Host) :
    frames w = S n ->
    step w (after (render h (plugin w)) n (inFlight w))
| step_response (w : World) (n : nat) (img : list Z) :
    inFlight w = S n ->
    step w (after (onResponse img (plugin w)) (frames w) n)
| step_redraw (w : World) :
    step w (after (onRedraw (plugin w)) (frames w) (inFlight w))
| step_destroy (w : World) :
    step w (after (destroy (plugin w)) (frames w) (inFlight w)).

Inductive reachable : World -> Prop :=
| reach_attach (opts : Options) (p : Plugin) :
    constructor opts = Normal p ->
    reachable (after (onInit (set_wavesurfer (Some Ref) p)) 0 0)
| reach_step (w w' : World) :
    reachable w -> step w w' -> reachable w'.

(** ** The statements of the specification, in its words *)


(** "paddedSamples length = leftPad + (endSample - startSample) + rightPad,
    with leftPad = min(startSample, windowSizeInSamples/2) and rightPad =
    min(totalSamples - endSample, fftSize/2 - 1)" *)
Definition spec_paddedLength (startSample endSample totalSamples : Z)
  (windowSizeInSamples : Q) (fftSize : Z) : Q :=
  Qmin (inject_Z startSample) (windowSizeInSamples / 2)
  + inject_Z (endSample - startSample)
  + inject_Z (Z.min (totalSamples - endSample) (fftSize / 2 - 1)).

(** "any response arriving after termination must be discarded without
    touching display state": the handler returns with the plugin as it was
    and has called nothing. *)
Definition discarded (img : list Z) (s : Plugin) : Prop :=
  onResponse img s = (Normal tt, s, []).

(** "request is suppressed; scheduler reschedules as Skipped without
    contacting the background unit" *)
Definition skipped (h : Host) (s : Plugin) : Prop :=
  effects_of (render h s) = [RequestAnimationFrame].

(** The padding the code takes: on each side all of it or none.  On the
    left it starts at the index that [subarray] derives from the double
    startSample - windowSizeInSamples / 2. *)
Definition leftPad (startSample totalSamples : Z) (windowSizeInSamples : number) : Z :=
  if (of_Z startSample >? windowSizeInSamples / 2)%num
  then Z.max 0 (startSample
                - relativeIndex totalSamples
                    (of_Z startSample - windowSizeInSamples / 2)%num)
  else 0.

Definition rightPad (endSample totalSamples fftSize : Z) : Z :=
  if endSample + fftSize / 2 - 1 <? totalSamples
  then fftSize / 2 - 1
  else 0.


(** "fftSize(build(...)) is a power of two and fftSize >= 512" *)
Definition spec_fftSize (fftSize : number) : Prop :=
  exists k : nat, fftSize = of_Z (2 ^ Z.of_nat k) /\ 512 <= 2 ^ Z.of_nat k.

(** A power of two with a natural exponent, as the loop of
    [calcClosestPowerOf2Gt] makes them. *)
Definition pow2 (k : nat) : Z := 2 ^ Z.of_nat k.

(** [k] is the least exponent with [q <= 2^k]. *)
Definition least_exponent (q : Q) (k : nat) : Prop :=
  (q <= inject_Z (pow2 k))%Q /\ forall j : nat, (q <= inject_Z (pow2 j))%Q -> (k <= j)%nat.

(** The plugin is in use: nothing it calls into has been released. *)
Definition live (s : Plugin) : Prop :=
  terminated s = false /\ wavesurfer s <> None /\ wrapper s <> None
  /\ options s <> None /\ spectroWorker s <> None.

(** The image buffer has the size of the canvas. *)
Definition sameSize (s : Plugin) : Prop :=
  img_width (imageData s) = canvas_width (canvas s)
  /\ img_height (imageData s) = canvas_height (canvas s).

(** ** The outcomes of a tick *)

(** The plugin after a tick that goes on to draw the range [sS, eS]. *)
Definition drawing (h : Host) (sS eS : number) (s : Plugin) : Plugin :=
  set_canvas_width (offsetWidth h)
    (set_canvas_height (offsetHeight h)
       (set_old_eS eS (set_old_sS sS (set_update_needed false s)))).

(** The request of a tick that draws [sS, eS] from [buffer]. *)
Definition request_of (h : Host) (s : Plugin) (d : AudioBuffer) (opts : Options)
  (buffer : list sample) (sS eS : number) (padded : list sample) : Request := {|
  rq_windowSizeInSecs := windowSizeInSecs opts;
  rq_fftN := fftN_of (sampleRate d) (windowSizeInSecs opts);
  rq_alpha := alpha opts;
  rq_upperFreq := upperFreq_of (sampleRate d) opts;
  rq_lowerFreq := lowerFreq opts;
  rq_samplesPerPxl := ((eS + 1 - sS) / of_Z (offsetWidth h))%num;
  rq_window := windowNum s;
  rq_imgWidth := offsetWidth h;
  rq_imgHeight := offsetHeight h;
  rq_dynRangeInDB := dynRangeInDB opts;
  rq_pixelRatio := devicePixelRatio h;
  rq_sampleRate := sampleRate d;
  rq_transparency := transparency opts;
  rq_audioBuffer := padded;
  rq_audioBufferChannels := 1;
  rq_drawHeatMapColors := drawHeatMapColors opts;
  rq_preEmphasisFilterFactor := preEmphasisFilterFactor opts;
  rq_heatMapColorAnchors := heatMapColorAnchors opts;
  rq_invert := invert opts
|}.

(** The range of this tick is the one drawn last. *)
Definition sameRange (h : Host) (d : AudioBuffer) (s : Plugin) : bool :=
  (fst (sampleRange h (of_nat (ab_length d))) ==? old_sS s)%num
  && (snd (sampleRange h (of_nat (ab_length d))) ==? old_eS s)%num.

(** The ways a tick can go, in the order [render] tests them. *)
Inductive tick (h : Host) (s : Plugin) : completion unit * Plugin * list effect -> Prop :=
| tick_terminated :
    terminated s = true ->
    tick h s (Normal tt, s, [])
| tick_idle :
    terminated s = false -> update_needed s = false ->
    tick h s (Normal tt, s, [RequestAnimationFrame])
| tick_detached :
    terminated s = false -> update_needed s = true -> wavesurfer s = None ->
    tick h s (Throw TypeError, s, [])
| tick_undecoded :
    terminated s = false -> update_needed s = true -> wavesurfer s <> None ->
    decodedData h = None ->
    tick h s (Normal tt, set_update_needed false s, [RequestAnimationFrame])
| tick_unmoved (d : AudioBuffer) :
    terminated s = false -> update_needed s = true -> wavesurfer s <> None ->
    decodedData h = Some d -> sameRange h d s = true ->
    tick h s (Normal tt, set_update_needed false s, [RequestAnimationFrame])
| tick_thrown (d : AudioBuffer) (e : error) (s' : Plugin) :
    terminated s = false -> update_needed s = true -> wavesurfer s <> None ->
    decodedData h = Some d -> sameRange h d s = false ->
    wrapper s = None \/ options s = None \/ spectroWorker s = None
    \/ (exists opts, options s = Some opts /\ nth_error (channelData d) (channel opts) = None) ->
    terminated s' = false -> update_needed s' = false ->
    imageData s' = imageData s -> allocated s' = allocated s ->
    tick h s (Throw e, s', [])
| tick_submitted (d : AudioBuffer) (opts : Options) (buffer padded : list sample) :
    terminated s = false -> update_needed s = true -> wavesurfer s <> None ->
    decodedData h = Some d -> sameRange h d s = false ->
    wrapper s <> None -> options s = Some opts -> spectroWorker s <> None ->
    nth_error (channelData d) (channel opts) = Some buffer ->
    let sS := fst (sampleRange h (of_nat (ab_length d))) in
    let eS := snd (sampleRange h (of_nat (ab_length d))) in
    paddedSamples_of buffer sS eS (windowSizeInSecs opts * sampleRate d)%num
      (fftN_of (sampleRate d) (windowSizeInSecs opts)) = Some padded ->
    tick h s (Normal tt, drawing h sS eS s,
              [Tell (request_of h s d opts buffer sS eS padded)]).

(** ** The outcomes of a response *)

(** The test of line 240: the canvas no longer has the size of the image. *)
Definition resized (s : Plugin) : bool :=
  negb (img_width (imageData s) =? canvas_width (canvas s))
  || negb (img_height (imageData s) =? canvas_height (canvas s)).

(** The reallocation of line 241 is due and cannot be made: the canvas has
    no pixels. *)
Definition unfit (s : Plugin) : bool :=
  resized s
  && ((canvas_width (canvas s) =? 0) || (canvas_height (canvas s) =? 0)).

(** The plugin after lines 240-241 (as it was, when line 241 throws). *)
Definition ensured (s : Plugin) : Plugin :=
  if resized s && negb (unfit s)
  then set_imageData
         {| img_id := allocated s;
            img_width := Z.abs (canvas_width (canvas s));
            img_height := Z.abs (canvas_height (canvas s));
            img_data := repeat 0 (Z.to_nat (Z.abs (canvas_width (canvas s))
                                             * Z.abs (canvas_height (canvas s)) * 4)) |}
         (set_allocated (S (allocated s)) s)
  else s.

(** The image once the values of the response are copied in. *)
Definition filled (img : list Z) (s : Plugin) : ImageData :=
  with_data (Uint8ClampedArray img
             ++ skipn (List.length img) (img_data (imageData (ensured s))))
    (imageData (ensured s)).

(** ** The outcome of detaching *)

(** The plugin once [destroy] has run up to its call of the worker. *)
Definition released (s : Plugin) : Plugin :=
  let s' := set_options None (set_wavesurfer None (set_terminated true s)) in
  match wrapper s with
  | Some _ => set_wrapper None s'
  | None => s'
  end.

(** ** Sample inputs *)

(** [n] samples of silence in one channel. *)
Definition silence (n : nat) (rate : Z) : AudioBuffer :=
  {| ab_length := n; sampleRate := of_Z rate; channelData := [repeat 0%Q n] |}.

(** A plugin with a hamming window, attached and asked to redraw. *)
Definition dirty_plugin (opts : Options) : Plugin :=
  set_update_needed true (set_wavesurfer (Some Ref) (fresh_plugin opts 6)).

(** An analysis window of 1/16 s: 1000 samples at 16 kHz. *)
Definition long_window : Options := {|
  height := of_Z 100;
  channel := 0;
  windowSizeInSecs := lit (1 # 16);
  upperFreq := None;
  lowerFreq := of_Z 0;
  alpha := lit (16 # 100);
  window := "hamming";
  dynRangeInDB := of_Z 70;
  preEmphasisFilterFactor := lit (97 # 100);
  transparency := of_Z 255;
  drawHeatMapColors := false;
  heatMapColorAnchors := [[255; 0; 0]; [0; 255; 0]; [0; 0; 0]];
  invert := false
|}.

(** 2000 samples at 16 kHz in a container that shows [visible] of its 2000
    pixels from pixel [left] on. *)
Definition viewport (left visible : Z) : Host := {|
  scrollLeft := of_Z left;
  scrollWidth := of_Z 2000;
  clientWidth := of_Z visible;
  decodedData := Some (silence 2000 16000);
  offsetHeight := 100;
  offsetWidth := 800;
  devicePixelRatio := of_Z 1
|}.

(** The default options with an upper frequency of zero asked for. *)
Definition zero_upperFreq : Options := with_upperFreq (Some (of_Z 0)) defaultOptions.

(** The request a new plugin with these options sends for the first 100
    of the 2000 samples. *)
Definition first_request : Request :=
  let buffer := repeat 0%Q 2000 in
  request_of (viewport 0 100) (dirty_plugin zero_upperFreq) (silence 2000 16000)
    zero_upperFreq buffer (of_Z 0) (of_Z 100)
    (left_padding_of buffer (of_Z 0) (windowSizeInSecs zero_upperFreq * of_Z 16000)%num
     ++ subarray buffer (of_Z 0) (of_Z 100)
     ++ right_padding_of buffer (of_Z 100)
          (fftN_of (of_Z 16000) (windowSizeInSecs zero_upperFreq))).

(** A plugin with the default options just attached; the same after a
    redraw event; the same after the tick that follows. *)
Definition attached_world : World :=
  after (onInit (set_wavesurfer (Some Ref) (fresh_plugin defaultOptions 6))) 0 0.

Definition redrawn_world : World :=
  after (onRedraw (plugin attached_world)) (frames attached_world) (inFlight attached_world).

Definition drawing_world : World :=
  after (render (viewport 0 100) (plugin redrawn_world)) 0 (inFlight redrawn_world).

(** ** Runs of the loop *)

(** Any number of steps. *)
Inductive steps : World -> World -> Prop :=
| steps_none (w : World) : steps w w
| steps_more (w w' w'' : World) : step w w' -> steps w' w'' -> steps w w''.

(** The states of a loop in which no method has thrown and [destroy] has
    not been called. *)
Inductive running : World -> Prop :=
| running_attach (opts : Options) (p : Plugin) :
    constructor opts = Normal p ->
    running (after (onInit (set_wavesurfer (Some Ref) p)) 0 0)
| running_frame (w : World) (n : nat) (h : Host) :
    running w -> frames w = S n ->
    result_of (render h (plugin w)) = Normal tt ->
    running (after (render h (plugin w)) n (inFlight w))
| running_response (w : World) (n : nat) (img : list Z) :
    running w -> inFlight w = S n ->
    result_of (onResponse img (plugin w)) = Normal tt ->
    running (after (onResponse img (plugin w)) (frames w) n)
| running_redraw (w : World) :
    running w ->
    running (after (onRedraw (plugin w)) (frames w) (inFlight w)).

(** Nothing is queued and nothing is in flight: no tick and no response
    will run any more. *)
Definition stalled (w : World) : Prop := frames w = 0%nat /\ inFlight w = 0%nat.

(** The window names of the [window] option, in the order of its
    documentation. *)
Definition window_names : list string :=
  ["bartlett"%string; "bartletthann"%string; "blackman"%string; "cosine"%string;
   "gauss"%string; "hamming"%string; "hann"%string; "lanczos"%string;
   "rectangular"%string; "triangular"%string].

(** The plugin after the writes of lines 355-357, before the canvas is
    touched. *)
Definition noted (sS eS : number) (s : Plugin) : Plugin :=
  set_old_eS eS (set_old_sS sS (set_update_needed false s)).

(** The fields that hold references, and the window number. *)
Definition same_references (s s' : Plugin) : Prop :=
  options s' = options s /\ windowNum s' = windowNum s /\ wrapper s' = wrapper s
  /\ spectroWorker s' = spectroWorker s /\ wavesurfer s' = wavesurfer s
  /\ terminated s' = terminated s.

(** The image holds four bytes for each of its pixels. *)
Definition sized (i : ImageData) : Prop :=
  List.length (img_data i) = Z.to_nat (img_width i * img_height i * 4).

(** What holds of the fields between any two method calls: the window
    number is one of the ten, the image has its bytes, and the references are
    all there until [destroy] and all gone after. *)
Definition consistent (s : Plugin) : Prop :=
  1 <= windowNum s <= 10
  /\ sized (imageData s)
  /\ if terminated s
     then options s = None /\ wrapper s = None /\ spectroWorker s = None
          /\ wavesurfer s = None
     else live s.

(** A plugin attached with [opts], asked to redraw, and about to tick. *)
Definition redrawn_with (opts : Options) (n : Z) : World :=
  let w := after (onInit (set_wavesurfer (Some Ref) (fresh_plugin opts n))) 0 0 in
  after (onRedraw (plugin w)) (frames w) (inFlight w).

(** Audio with one channel but a plugin asked to draw the second. *)
Definition second_channel : Options := {|
  height := of_Z 100;
  channel := 1;
  windowSizeInSecs := lit (5 # 1000);
  upperFreq := None;
  lowerFreq := of_Z 0;
  alpha := lit (16 # 100);
  window := "hann";
  dynRangeInDB := of_Z 70;
  preEmphasisFilterFactor := lit (97 # 100);
  transparency := of_Z 255;
  drawHeatMapColors := false;
  heatMapColorAnchors := [[255; 0; 0]; [0; 255; 0]; [0; 0; 0]];
  invert := false
|}.


(** A container that is not laid out: every length is zero. *)
Definition hidden_viewport : Host := {|
  scrollLeft := of_Z 0;
  scrollWidth := of_Z 0;
  clientWidth := of_Z 0;
  decodedData := Some (silence 2000 16000);
  offsetHeight := 0;
  offsetWidth := 0;
  devicePixelRatio := of_Z 1
|}.

(** A wrapper two pixels wide and one high over the first half of the
    audio. *)
Definition tiny_viewport : Host := {|
  scrollLeft := of_Z 0;
  scrollWidth := of_Z 2000;
  clientWidth := of_Z 1000;
  decodedData := Some (silence 2000 16000);
  offsetHeight := 1;
  offsetWidth := 2;
  devicePixelRatio := of_Z 1
|}.

(** The first 100 samples again, the wrapper now half as large. *)
Definition shrunk_viewport : Host := {|
  scrollLeft := of_Z 0;
  scrollWidth := of_Z 2000;
  clientWidth := of_Z 100;
  decodedData := Some (silence 2000 16000);
  offsetHeight := 50;
  offsetWidth := 400;
  devicePixelRatio := of_Z 1
|}.


(** * Properties *)

(** ** Rounding to a double *)

Section Rounding.

Lemma two_to_pos (e : Z) : (0 < two_to e)%Q.
Proof. apply Qpower_0_lt. reflexivity. Qed.

Lemma two_to_plus (a b : Z) : (two_to (a + b) == two_to a * two_to b)%Q.
Proof. apply Qpower_plus. discriminate. Qed.

Lemma two_to_le (a b : Z) : a <= b -> (two_to a <= two_to b)%Q.
Proof. intros H. apply Qpower_le_compat_l; [exact H | discriminate]. Qed.

Lemma two_to_lt (a b : Z) : a < b -> (two_to a < two_to b)%Q.
Proof. intros H. apply Qpower_lt_compat_l; [exact H | reflexivity]. Qed.

Lemma two_to_lt_inv (a b : Z) : (two_to a < two_to b)%Q -> a < b.
Proof. intros H. apply (Qpower_lt_compat_l_inv 2); [exact H | reflexivity]. Qed.

Lemma two_to_Z (z : Z) : 0 <= z -> (two_to z == inject_Z (2 ^ z))%Q.
Proof. intros H. unfold two_to. rewrite Zpower_Qpower by exact H. reflexivity. Qed.

Lemma two_to_opp (e : Z) : (two_to (- e) == / two_to e)%Q.
Proof. apply Qpower_opp. Qed.

(** The binade of a positive rational. *)
Lemma binade_spec (q : Q) :
  (0 < q)%Q -> (two_to (binade q) <= q)%Q /\ (q < two_to (binade q + 1))%Q.
Proof.
  intros Hq. unfold binade. destruct (Qle_bool 1 q) eqn:Hone.
  - apply Qle_bool_iff in Hone.
    assert (Hf : 1 <= Qfloor q).
    { rewrite <- (Qfloor_Z 1). apply Qfloor_resp_le. exact Hone. }
    destruct (Z.log2_spec (Qfloor q)) as [Hlo Hhi]; [lia |].
    pose proof (Z.log2_nonneg (Qfloor q)) as Hnn.
    split.
    + rewrite two_to_Z by exact Hnn.
      apply Qle_trans with (inject_Z (Qfloor q)); [| apply Qfloor_le].
      rewrite <- Zle_Qle. exact Hlo.
    + rewrite two_to_Z by lia.
      apply Qlt_le_trans with (inject_Z (Qfloor q + 1)); [apply Qlt_floor |].
      rewrite <- Zle_Qle. unfold Z.succ in Hhi. lia.
  - assert (Hlt : (q < 1)%Q).
    { apply Qnot_le_lt. intros H. apply Qle_bool_iff in H. congruence. }
    assert (Hinv : (1 < / q)%Q).
    { apply Qlt_shift_inv_l; [exact Hq |]. rewrite Qmult_1_l. exact Hlt. }
    set (c := Qceiling (/ q)).
    assert (Hc : 1 < c).
    { rewrite Zlt_Qlt. apply Qlt_le_trans with (/ q); [exact Hinv | apply Qle_ceiling]. }
    destruct (Z.log2_up_spec c Hc) as [Hlo Hhi].
    pose proof (Z.log2_up_nonneg c) as Hnn.
    set (L := Z.log2_up c) in *.
    assert (HL : 1 <= L).
    { destruct (Z.le_gt_cases 1 L) as [H | H]; [exact H |].
      exfalso. replace L with 0 in Hhi by lia. cbn in Hhi. lia. }
    split.
    + rewrite two_to_opp. apply Qle_shift_inv_r; [apply two_to_pos |].
      apply Qle_trans with (q * / q)%Q.
      * rewrite Qmult_inv_r; [apply Qle_refl |].
        intros H0. rewrite H0 in Hq. exact (Qlt_irrefl 0 Hq).
      * apply Qmult_le_l; [exact Hq |].
        apply Qle_trans with (inject_Z c); [apply Qle_ceiling |].
        rewrite two_to_Z by exact Hnn. rewrite <- Zle_Qle. exact Hhi.
    + replace (- L + 1) with (- (L - 1)) by lia.
      rewrite two_to_opp. apply Qlt_shift_inv_l; [apply two_to_pos |].
      apply Qlt_le_trans with (q * / q)%Q.
      * apply Qmult_lt_l; [exact Hq |].
        apply Qle_lt_trans with (inject_Z (c - 1)); [| apply Qceiling_lt].
        rewrite two_to_Z by lia. rewrite <- Zle_Qle.
        replace (L - 1) with (Z.pred L) by (unfold Z.pred; lia). lia.
      * rewrite Qmult_inv_r; [apply Qle_refl |].
        intros H0. rewrite H0 in Hq. exact (Qlt_irrefl 0 Hq).
Qed.

Lemma binade_mono (x y : Q) : (0 < x)%Q -> (x <= y)%Q -> binade x <= binade y.
Proof.
  intros Hx Hxy.
  assert (Hy : (0 < y)%Q) by (apply Qlt_le_trans with x; assumption).
  destruct (binade_spec x Hx) as [Hlo _]. destruct (binade_spec y Hy) as [_ Hhi].
  assert (H : binade x < binade y + 1).
  { apply two_to_lt_inv. apply Qle_lt_trans with x; [exact Hlo |].
    apply Qle_lt_trans with y; assumption. }
  lia.
Qed.

Lemma binade_comp (x y : Q) : (x == y)%Q -> binade x = binade y.
Proof.
  intros Hxy. unfold binade.
  assert (Hb : Qle_bool 1 x = Qle_bool 1 y).
  { destruct (Qle_bool 1 x) eqn:Hx, (Qle_bool 1 y) eqn:Hy; try reflexivity.
    - apply Qle_bool_iff in Hx. rewrite Hxy in Hx. apply Qle_bool_iff in Hx. congruence.
    - apply Qle_bool_iff in Hy. rewrite <- Hxy in Hy. apply Qle_bool_iff in Hy. congruence. }
  assert (Hf : Qfloor x = Qfloor y) by (rewrite Hxy; reflexivity).
  assert (Hc : Qceiling (/ x) = Qceiling (/ y)) by (rewrite Hxy; reflexivity).
  rewrite Hb, Hf, Hc. reflexivity.
Qed.

(** Rounding to an integer. *)
Lemma nearest_even_cases (x : Q) :
  (nearest_even x = Qfloor x /\ (x - inject_Z (Qfloor x) <= 1 # 2)%Q)
  \/ (nearest_even x = Qfloor x + 1 /\ (1 # 2 <= x - inject_Z (Qfloor x))%Q).
Proof.
  unfold nearest_even.
  destruct (x - inject_Z (Qfloor x) ?= 1 # 2)%Q eqn:Hc.
  - apply Qeq_alt in Hc.
    destruct (Z.even (Qfloor x)); [left | right]; split; try reflexivity;
      rewrite Hc; apply Qle_refl.
  - apply Qlt_alt in Hc. left. split; [reflexivity | apply Qlt_le_weak; exact Hc].
  - apply Qgt_alt in Hc. right. split; [reflexivity | apply Qlt_le_weak; exact Hc].
Qed.

Lemma nearest_even_comp (x y : Q) : (x == y)%Q -> nearest_even x = nearest_even y.
Proof.
  intros Hxy. unfold nearest_even.
  assert (Hf : Qfloor x = Qfloor y) by (rewrite Hxy; reflexivity).
  assert (Hc : (x - inject_Z (Qfloor x) ?= 1 # 2)%Q = (y - inject_Z (Qfloor y) ?= 1 # 2)%Q)
    by (rewrite Hf, Hxy; reflexivity).
  rewrite Hc, Hf. reflexivity.
Qed.

Lemma nearest_even_Z (z : Z) : nearest_even (inject_Z z) = z.
Proof.
  unfold nearest_even. rewrite Qfloor_Z.
  assert (H : (inject_Z z - inject_Z z ?= 1 # 2)%Q = Lt).
  { apply Qlt_alt. unfold Qminus. rewrite Qplus_opp_r. reflexivity. }
  rewrite H. reflexivity.
Qed.

Lemma nearest_even_mono (x y : Q) : (x <= y)%Q -> nearest_even x <= nearest_even y.
Proof.
  intros Hxy.
  pose proof (Qfloor_resp_le x y Hxy) as Hfl.
  destruct (Z.eq_dec (Qfloor x) (Qfloor y)) as [Heq | Hne].
  - (* the same integer part: compare the fractions *)
    unfold nearest_even. rewrite <- Heq.
    assert (Hfrac : (x - inject_Z (Qfloor x) <= y - inject_Z (Qfloor x))%Q).
    { apply Qplus_le_l. exact Hxy. }
    destruct (x - inject_Z (Qfloor x) ?= 1 # 2)%Q eqn:Hx;
      destruct (y - inject_Z (Qfloor x) ?= 1 # 2)%Q eqn:Hy;
      try (destruct (Z.even (Qfloor x)); lia).
    + apply Qeq_alt in Hx. apply Qlt_alt in Hy. rewrite Hx in Hfrac.
      exfalso. exact (Qlt_not_le _ _ Hy Hfrac).
    + apply Qgt_alt in Hx. apply Qeq_alt in Hy. rewrite Hy in Hfrac.
      exfalso. exact (Qlt_not_le _ _ Hx Hfrac).
    + apply Qgt_alt in Hx. apply Qlt_alt in Hy.
      exfalso. apply (Qlt_irrefl (1 # 2)).
      apply Qlt_le_trans with (x - inject_Z (Qfloor x))%Q; [exact Hx |].
      apply Qle_trans with (y - inject_Z (Qfloor x))%Q; [exact Hfrac |].
      apply Qlt_le_weak. exact Hy.
  - destruct (nearest_even_cases x) as [[-> _] | [-> _]];
      destruct (nearest_even_cases y) as [[-> _] | [-> _]]; lia.
Qed.

Lemma nearest_even_nonneg (x : Q) : (0 <= x)%Q -> 0 <= nearest_even x.
Proof.
  intros Hx. rewrite <- (nearest_even_Z 0). apply nearest_even_mono. exact Hx.
Qed.

Lemma Qdiv_le_pos (x y u : Q) : (0 < u)%Q -> (x <= y)%Q -> (x / u <= y / u)%Q.
Proof.
  intros Hu Hxy. unfold Qdiv. apply Qmult_le_compat_r; [exact Hxy |].
  apply Qlt_le_weak, Qinv_lt_0_compat. exact Hu.
Qed.

Lemma Qdiv_mult_pos (c u : Q) : (0 < u)%Q -> (c * u / u == c)%Q.
Proof.
  intros Hu. field. intros H0. rewrite H0 in Hu. exact (Qlt_irrefl 0 Hu).
Qed.

Lemma round_pos_comp (x y : Q) : (x == y)%Q -> round_pos x = round_pos y.
Proof.
  intros Hxy. unfold round_pos. rewrite (binade_comp x y Hxy).
  set (u := two_to (Z.max (binade y) (-1022) - 52)).
  rewrite (nearest_even_comp (x / u) (y / u)) by (rewrite Hxy; reflexivity).
  reflexivity.
Qed.

Lemma round_pos_nonneg (q : Q) : (0 < q)%Q -> (0 <= round_pos q)%Q.
Proof.
  intros Hq. unfold round_pos.
  set (u := two_to (Z.max (binade q) (-1022) - 52)).
  assert (Hu : (0 < u)%Q) by apply two_to_pos.
  apply Qmult_le_0_compat; [| apply Qlt_le_weak; exact Hu].
  rewrite <- (Zle_Qle 0). apply nearest_even_nonneg.
  apply Qle_shift_div_l; [exact Hu |]. rewrite Qmult_0_l. apply Qlt_le_weak. exact Hq.
Qed.

(** A rounded number stays in the binade of the number, ends included. *)
Lemma round_pos_upper (q : Q) :
  (0 < q)%Q -> (round_pos q <= two_to (Z.max (binade q) (-1022) + 1))%Q.
Proof.
  intros Hq. unfold round_pos.
  set (e := Z.max (binade q) (-1022)). set (u := two_to (e - 52)).
  assert (Hu : (0 < u)%Q) by apply two_to_pos.
  assert (Htop : (two_to (e + 1) == inject_Z (2 ^ 53) * u)%Q).
  { replace (e + 1) with (53 + (e - 52)) by lia.
    rewrite two_to_plus, (two_to_Z 53) by lia. reflexivity. }
  rewrite Htop. apply Qmult_le_compat_r; [| apply Qlt_le_weak; exact Hu].
  rewrite <- Zle_Qle. rewrite <- (nearest_even_Z (2 ^ 53)).
  apply nearest_even_mono.
  apply Qle_shift_div_r; [exact Hu |]. rewrite <- Htop.
  destruct (binade_spec q Hq) as [_ Hhi].
  apply Qlt_le_weak. apply Qlt_le_trans with (two_to (binade q + 1)); [exact Hhi |].
  apply two_to_le. lia.
Qed.

Lemma round_pos_lower (q : Q) :
  (0 < q)%Q -> -1022 <= binade q -> (two_to (binade q) <= round_pos q)%Q.
Proof.
  intros Hq Hnormal. unfold round_pos.
  rewrite Z.max_l by exact Hnormal.
  set (e := binade q). set (u := two_to (e - 52)).
  assert (Hu : (0 < u)%Q) by apply two_to_pos.
  assert (Hbot : (two_to e == inject_Z (2 ^ 52) * u)%Q).
  { replace e with (52 + (e - 52)) at 1 by lia.
    rewrite two_to_plus, (two_to_Z 52) by lia. reflexivity. }
  rewrite Hbot. apply Qmult_le_compat_r; [| apply Qlt_le_weak; exact Hu].
  rewrite <- Zle_Qle. rewrite <- (nearest_even_Z (2 ^ 52)) at 1.
  apply nearest_even_mono.
  apply Qle_shift_div_l; [exact Hu |]. rewrite <- Hbot.
  destruct (binade_spec q Hq) as [Hlo _]. exact Hlo.
Qed.

Lemma round_pos_mono (x y : Q) :
  (0 < x)%Q -> (x <= y)%Q -> (round_pos x <= round_pos y)%Q.
Proof.
  intros Hx Hxy.
  assert (Hy : (0 < y)%Q) by (apply Qlt_le_trans with x; assumption).
  pose proof (binade_mono x y Hx Hxy) as Hb.
  destruct (Z.eq_dec (Z.max (binade x) (-1022)) (Z.max (binade y) (-1022))) as [Heq | Hne].
  - unfold round_pos. rewrite Heq.
    set (u := two_to (Z.max (binade y) (-1022) - 52)).
    assert (Hu : (0 < u)%Q) by apply two_to_pos.
    apply Qmult_le_compat_r; [| apply Qlt_le_weak; exact Hu].
    rewrite <- Zle_Qle. apply nearest_even_mono. apply Qdiv_le_pos; assumption.
  - apply Qle_trans with (two_to (Z.max (binade x) (-1022) + 1));
      [apply round_pos_upper; exact Hx |].
    apply Qle_trans with (two_to (binade y));
      [apply two_to_le; lia | apply round_pos_lower; [exact Hy | lia]].
Qed.

Lemma round_pos_exact (q : Q) (m : Z) :
  (0 < q)%Q ->
  (q == inject_Z m * two_to (Z.max (binade q) (-1022) - 52))%Q ->
  (round_pos q == q)%Q.
Proof.
  intros Hq Hm. unfold round_pos.
  set (u := two_to (Z.max (binade q) (-1022) - 52)) in *.
  assert (Hu : (0 < u)%Q) by apply two_to_pos.
  assert (Hdiv : (q / u == inject_Z m)%Q).
  { rewrite Hm. apply Qdiv_mult_pos. exact Hu. }
  rewrite (nearest_even_comp _ _ Hdiv), nearest_even_Z. symmetry. exact Hm.
Qed.

Lemma round64_comp (x y : Q) : (x == y)%Q -> round64 x = round64 y.
Proof.
  intros Hxy. unfold round64.
  assert (Hc : (x ?= 0)%Q = (y ?= 0)%Q) by (rewrite Hxy; reflexivity).
  rewrite Hc, (round_pos_comp x y Hxy).
  rewrite (round_pos_comp (- x) (- y)) by (rewrite Hxy; reflexivity).
  reflexivity.
Qed.

Lemma Qred_inject_Z (z : Z) : Qred (inject_Z z) = inject_Z z.
Proof.
  unfold Qred, inject_Z.
  pose proof (Z.ggcd_correct_divisors z 1) as Hd. pose proof (Z.ggcd_gcd z 1) as Hg.
  destruct (Z.ggcd z 1) as [g [aa bb]]. cbn [fst snd] in *.
  rewrite Z.gcd_1_r in Hg. subst g. destruct Hd as [Ha Hb].
  rewrite Z.mul_1_l in Ha, Hb. subst aa bb. reflexivity.
Qed.

Lemma round_pos_integer (z : Z) :
  0 < z < 2 ^ 53 -> (round_pos (inject_Z z) == inject_Z z)%Q.
Proof.
  intros Hz.
  assert (Hq : (0 < inject_Z z)%Q) by (rewrite <- (Zlt_Qlt 0); lia).
  set (e := Z.max (binade (inject_Z z)) (-1022)).
  assert (He : e <= 52).
  { destruct (binade_spec (inject_Z z) Hq) as [Hlo _].
    assert (Hb : binade (inject_Z z) < 53).
    { apply two_to_lt_inv. apply Qle_lt_trans with (inject_Z z); [exact Hlo |].
      rewrite (two_to_Z 53) by lia. rewrite <- Zlt_Qlt. lia. }
    unfold e. lia. }
  apply (round_pos_exact (inject_Z z) (z * 2 ^ (52 - e)) Hq). fold e.
  rewrite inject_Z_mult, <- (two_to_Z (52 - e)) by lia.
  rewrite <- Qmult_assoc, <- two_to_plus.
  replace (52 - e + (e - 52)) with 0 by lia.
  change (two_to 0) with 1%Q. rewrite Qmult_1_r. reflexivity.
Qed.

Lemma two_to_1024_above (z : Z) (r : Q) :
  z < 2 ^ 53 -> (r == inject_Z z)%Q -> Qle_bool (two_to 1024) r = false.
Proof.
  intros Hz Hr. apply Bool.not_true_iff_false. intros Hle. apply Qle_bool_iff in Hle.
  rewrite Hr, (two_to_Z 1024) in Hle by lia. rewrite <- Zle_Qle in Hle.
  assert (2 ^ 53 < 2 ^ 1024) by (apply Z.pow_lt_mono_r; lia). lia.
Qed.

(** The integers below 2^53 are doubles. *)
Lemma round64_of_Z (z : Z) : Z.abs z < 2 ^ 53 -> round64 (inject_Z z) = of_Z z.
Proof.
  intros Hz. unfold round64, of_Z.
  destruct (inject_Z z ?= 0)%Q eqn:Hc.
  - apply Qeq_alt in Hc. f_equal.
    transitivity (Qred (inject_Z z)); [| apply Qred_inject_Z].
    change 0%Q with (Qred (inject_Z 0)). apply Qred_complete. symmetry. exact Hc.
  - apply Qlt_alt in Hc. change 0%Q with (inject_Z 0) in Hc.
    rewrite <- (Zlt_Qlt z 0) in Hc.
    assert (Hr : (round_pos (- inject_Z z) == inject_Z (- z))%Q).
    { rewrite <- inject_Z_opp. apply round_pos_integer. lia. }
    cbv zeta. rewrite (two_to_1024_above (- z) _ ltac:(lia) Hr). f_equal.
    transitivity (Qred (inject_Z z)); [| apply Qred_inject_Z]. apply Qred_complete.
    rewrite Hr, inject_Z_opp. apply Qopp_involutive.
  - apply Qgt_alt in Hc. change 0%Q with (inject_Z 0) in Hc.
    rewrite <- (Zlt_Qlt 0 z) in Hc.
    assert (Hr : (round_pos (inject_Z z) == inject_Z z)%Q)
      by (apply round_pos_integer; lia).
    cbv zeta. rewrite (two_to_1024_above z _ ltac:(lia) Hr). f_equal.
    transitivity (Qred (inject_Z z)); [| apply Qred_inject_Z]. apply Qred_complete.
    exact Hr.
Qed.

Lemma round64_integer (q : Q) (z : Z) :
  (q == inject_Z z)%Q -> Z.abs z < 2 ^ 53 -> round64 q = of_Z z.
Proof.
  intros Hq Hz. rewrite (round64_comp q (inject_Z z) Hq). apply round64_of_Z. exact Hz.
Qed.

Lemma Fin_inj (a b : Q) : Fin a = Fin b -> a = b.
Proof. intros H. injection H as H. exact H. Qed.

(** Rounding keeps the order and the sign. *)
Lemma round64_mono (x y ry : Q) :
  (0 <= x)%Q -> (x <= y)%Q -> round64 y = Fin ry ->
  exists rx : Q, round64 x = Fin rx /\ (0 <= rx)%Q /\ (rx <= ry)%Q.
Proof.
  intros Hx Hxy Hy. unfold round64 in *.
  destruct (x ?= 0)%Q eqn:Hcx.
  - exists 0%Q. split; [reflexivity |]. split; [apply Qle_refl |].
    destruct (y ?= 0)%Q eqn:Hcy.
    + apply Fin_inj in Hy. subst ry. apply Qle_refl.
    + apply Qlt_alt in Hcy. apply Qeq_alt in Hcx. exfalso.
      apply (Qlt_not_le _ _ Hcy). rewrite <- Hcx. exact Hxy.
    + apply Qgt_alt in Hcy. cbv zeta in Hy.
      destruct (Qle_bool (two_to 1024) (round_pos y)); [discriminate Hy |].
      apply Fin_inj in Hy. subst ry. rewrite Qred_correct.
      apply round_pos_nonneg. exact Hcy.
  - apply Qlt_alt in Hcx. exfalso. exact (Qlt_not_le _ _ Hcx Hx).
  - apply Qgt_alt in Hcx.
    assert (Hypos : (0 < y)%Q) by (apply Qlt_le_trans with x; assumption).
    assert (Hcy : (y ?= 0)%Q = Gt) by (apply Qgt_alt; exact Hypos).
    rewrite Hcy in Hy. cbv zeta in *.
    destruct (Qle_bool (two_to 1024) (round_pos y)) eqn:Hov; [discriminate Hy |].
    apply Fin_inj in Hy. subst ry.
    pose proof (round_pos_mono x y Hcx Hxy) as Hmono.
    assert (Hovx : Qle_bool (two_to 1024) (round_pos x) = false).
    { apply Bool.not_true_iff_false. intros Hle. apply Qle_bool_iff in Hle.
      assert (Hle' : Qle_bool (two_to 1024) (round_pos y) = true).
      { apply Qle_bool_iff. apply Qle_trans with (round_pos x); assumption. }
      congruence. }
    rewrite Hovx. eexists. split; [reflexivity |].
    rewrite !Qred_correct. split; [apply round_pos_nonneg; exact Hcx | exact Hmono].
Qed.

(** A number that is not negative rounds to a number, or to Infinity. *)
Lemma round64_at_least (z : Z) (y : Q) :
  0 <= z < 2 ^ 53 -> (inject_Z z <= y)%Q -> at_least z (round64 y).
Proof.
  intros Hz Hy.
  assert (Hy0 : (0 <= y)%Q).
  { apply Qle_trans with (inject_Z z); [| exact Hy]. rewrite <- (Zle_Qle 0). lia. }
  destruct (round64 y) as [r | | |] eqn:Hr; cbn [at_least].
  - destruct (round64_mono (inject_Z z) y r) as (rx & Hrx & _ & Hle);
      [rewrite <- (Zle_Qle 0); lia | exact Hy | exact Hr |].
    rewrite round64_of_Z in Hrx by lia. apply Fin_inj in Hrx. subst rx. exact Hle.
  - exact I.
  - unfold round64 in Hr. destruct (y ?= 0)%Q eqn:Hc.
    + discriminate Hr.
    + apply Qlt_alt in Hc. exact (Qlt_not_le _ _ Hc Hy0).
    + cbv zeta in Hr. destruct (Qle_bool _ _); discriminate Hr.
  - unfold round64 in Hr. cbv zeta in Hr.
    destruct (y ?= 0)%Q; try discriminate Hr; destruct (Qle_bool _ _); discriminate Hr.
Qed.

Lemma at_least_weaken (y z : Z) (n : number) : y <= z -> at_least z n -> at_least y n.
Proof.
  intros Hyz. destruct n as [r | | |]; cbn [at_least]; try tauto.
  apply Qle_trans. rewrite <- Zle_Qle. exact Hyz.
Qed.

Lemma add_at_least (a z : Z) (n : number) :
  0 <= a -> 0 <= z < 2 ^ 53 -> at_least z n -> at_least z (of_Z a + n)%num.
Proof.
  intros Ha Hz. destruct n as [r | | |]; cbn [at_least]; try tauto.
  intros Hr. unfold of_Z, Num.add. apply round64_at_least; [exact Hz |].
  rewrite <- (Qplus_0_l (inject_Z z)). apply Qplus_le_compat; [| exact Hr].
  rewrite <- (Zle_Qle 0). exact Ha.
Qed.

Lemma sub_at_least (a z : Z) (n : number) :
  a <= z < 2 ^ 53 + a -> z < 2 ^ 53 -> at_least z n -> at_least (z - a) (n - of_Z a)%num.
Proof.
  intros Ha Hz. destruct n as [r | | |]; cbn [at_least]; try tauto.
  intros Hr. unfold of_Z, Num.sub, Num.neg, Num.add. apply round64_at_least; [lia |].
  unfold Z.sub. rewrite inject_Z_plus, inject_Z_opp.
  apply Qplus_le_compat; [exact Hr | apply Qle_refl].
Qed.

Lemma at_least_not_below (len z : Z) (n : number) :
  len <= z -> at_least z n -> (n <? of_Z len)%num = false.
Proof.
  intros Hlen. destruct n as [r | | |]; cbn [at_least]; try tauto; try reflexivity.
  intros Hr. unfold of_Z, Num.ltb.
  destruct (r ?= inject_Z len)%Q eqn:Hc; try reflexivity.
  apply Qlt_alt in Hc. exfalso. apply (Qlt_not_le _ _ Hc).
  apply Qle_trans with (inject_Z z); [rewrite <- Zle_Qle; exact Hlen | exact Hr].
Qed.

(** Sums, differences, products and quotients of integers are exact as long
    as the result is below 2^53. *)
Lemma add_of_Z (a b : Z) :
  Z.abs (a + b) < 2 ^ 53 -> (of_Z a + of_Z b)%num = of_Z (a + b).
Proof.
  intros H. unfold Num.add, of_Z at 1 2.
  apply round64_integer; [rewrite inject_Z_plus; reflexivity | exact H].
Qed.

Lemma sub_of_Z (a b : Z) :
  Z.abs (a - b) < 2 ^ 53 -> (of_Z a - of_Z b)%num = of_Z (a - b).
Proof.
  intros H. unfold Num.sub, Num.neg, Num.add, of_Z at 1 2.
  apply round64_integer; [| exact H].
  unfold Z.sub. rewrite inject_Z_plus, inject_Z_opp. reflexivity.
Qed.

Lemma mul_of_Z (a b : Z) :
  Z.abs (a * b) < 2 ^ 53 -> (of_Z a * of_Z b)%num = of_Z (a * b).
Proof.
  intros H. unfold Num.mul, of_Z at 1 2.
  apply round64_integer; [rewrite inject_Z_mult; reflexivity | exact H].
Qed.

Lemma Qeq_bool_inject_Z (b : Z) : b <> 0 -> Qeq_bool (inject_Z b) 0 = false.
Proof.
  intros Hb. apply Bool.not_true_iff_false. intros H. apply Qeq_bool_iff in H.
  apply Hb. apply (proj1 (inject_Z_injective b 0)). exact H.
Qed.

Lemma div_of_Z (a b c : Z) :
  b <> 0 -> a = b * c -> Z.abs c < 2 ^ 53 -> (of_Z a / of_Z b)%num = of_Z c.
Proof.
  intros Hb Ha Hc. unfold Num.div, of_Z at 1 2.
  rewrite (Qeq_bool_inject_Z b Hb).
  apply round64_integer; [| exact Hc].
  rewrite Ha, inject_Z_mult. field.
  intros H0. apply Hb. apply (proj1 (inject_Z_injective b 0)). exact H0.
Qed.

End Rounding.

(** ** Numbers and the FFT size *)

Section FftSize.

Lemma ltb_fin (x y : Q) : (Fin x <? Fin y)%num = true <-> (x < y)%Q.
Proof.
  unfold Num.ltb. rewrite Qlt_alt.
  destruct (x ?= y)%Q; split; congruence.
Qed.

Lemma ltb_fin_false (x y : Q) : (Fin x <? Fin y)%num = false <-> (y <= x)%Q.
Proof.
  rewrite <- Bool.not_true_iff_false, ltb_fin. split.
  - apply Qnot_lt_le.
  - apply Qle_not_lt.
Qed.

Lemma Math_pow2_small (e : nat) : (e <= 1023)%nat -> Math_pow2 e = of_Z (pow2 e).
Proof.
  intros He. unfold Math_pow2.
  destruct (Z.ltb_spec (Z.of_nat e) 1024) as [_ | Hge]; [reflexivity | lia].
Qed.

Lemma Math_pow2_large (e : nat) : (1023 < e)%nat -> Math_pow2 e = PInf.
Proof.
  intros He. unfold Math_pow2.
  destruct (Z.ltb_spec (Z.of_nat e) 1024) as [Hlt | _]; [lia | reflexivity].
Qed.

Lemma pow2_pos (k : nat) : 0 < pow2 k.
Proof. unfold pow2. apply Z.pow_pos_nonneg; lia. Qed.

(** The loop always exits: at the latest when the power overflows. *)
Lemma powerLoop_exits (num : number) (fuel e : nat) :
  (1024 < e + fuel)%nat -> fuel <> O -> powerLoop fuel num e <> None.
Proof.
  revert e. induction fuel as [| fuel IH]; intros e Hsum Hfuel; [congruence |].
  cbn [powerLoop].
  destruct (le_lt_dec e 1023) as [Hsmall | Hlarge].
  - destruct (Math_pow2 e <? num)%num; [| discriminate].
    apply IH; lia.
  - rewrite (Math_pow2_large e Hlarge). destruct num; discriminate.
Qed.

Lemma powerLoop_total (num : number) : powerLoop powerLoop_fuel num 0 <> None.
Proof. apply powerLoop_exits; unfold powerLoop_fuel; lia. Qed.

(** On a finite number within the range of the powers, the loop stops at
    the first exponent whose power reaches it. *)
Lemma powerLoop_spec (q : Q) (fuel e : nat) :
  (q <= inject_Z (pow2 1023))%Q -> (e <= 1023)%nat -> (1023 < e + fuel)%nat ->
  exists k : nat,
    powerLoop fuel (Fin q) e = Some k /\ (e <= k <= 1023)%nat
    /\ (q <= inject_Z (pow2 k))%Q
    /\ forall j : nat, (e <= j < k)%nat -> (inject_Z (pow2 j) < q)%Q.
Proof.
  intros Hq. revert e. induction fuel as [| fuel IH]; intros e He Hsum; [lia |].
  cbn [powerLoop]. rewrite (Math_pow2_small e He). unfold of_Z.
  destruct (Fin (inject_Z (pow2 e)) <? Fin q)%num eqn:Hlt.
  - apply ltb_fin in Hlt.
    assert (He' : (e < 1023)%nat).
    { destruct (Nat.eq_dec e 1023) as [-> | Hne]; [| lia].
      exfalso. apply (Qlt_not_le _ _ Hlt). exact Hq. }
    destruct (IH (S e)) as (k & Hk & Hrange & Hreach & Hbelow); [lia | lia |].
    exists k. repeat split; try assumption; try lia.
    intros j Hj. destruct (Nat.eq_dec j e) as [-> | Hne]; [exact Hlt |].
    apply Hbelow. lia.
  - apply ltb_fin_false in Hlt.
    exists e. repeat split; try assumption; try lia.
Qed.

Lemma calcClosestPowerOf2Gt_spec (q : Q) :
  (q <= inject_Z (pow2 1023))%Q ->
  exists k : nat, calcClosestPowerOf2Gt (Fin q) = of_Z (pow2 k) /\ least_exponent q k.
Proof.
  intros Hq.
  destruct (powerLoop_spec q powerLoop_fuel 0 Hq) as (k & Hk & Hrange & Hreach & Hbelow).
  - lia.
  - unfold powerLoop_fuel. lia.
  - exists k. unfold calcClosestPowerOf2Gt. rewrite Hk. split.
    + apply Math_pow2_small. lia.
    + split; [exact Hreach |].
      intros j Hj. destruct (le_lt_dec k j) as [Hle | Hgt]; [exact Hle |].
      exfalso. apply (Qlt_not_le _ _ (Hbelow j (conj (Nat.le_0_l j) Hgt))). exact Hj.
Qed.

End FftSize.

(** C5.  Whenever sampleRate x windowSizeInSecs, as the code computes it in
    double arithmetic, is a finite number that a power of two of a double can
    reach (at most 2^1023), the FFT size of the request is a power of two, is
    at least 512, and is at least the smallest power of two that is at least
    that product; it is that power or 512, whichever is larger.  With
    sampleRate = 16000 and windowSizeInSecs = 0.005 the FFT size is 512; with
    windowSizeInSecs = 0.064 the product rounds to 1024 and the FFT size is
    1024. *)
Theorem fftN_power_of_two (sampleRate windowSizeInSecs : number) (q : Q) :
  (sampleRate * windowSizeInSecs)%num = Fin q ->
  (q <= inject_Z (pow2 1023))%Q ->
  (exists k j : nat,
      fftN_of sampleRate windowSizeInSecs = of_Z (pow2 k)
      /\ spec_fftSize (fftN_of sampleRate windowSizeInSecs)
      /\ 512 <= pow2 k
      /\ least_exponent q j
      /\ pow2 j <= pow2 k
      /\ pow2 k = Z.max 512 (pow2 j))
  /\ fftN_of (of_Z 16000) (lit (5 # 1000)) = of_Z 512
  /\ fftN_of (of_Z 16000) (lit (64 # 1000)) = of_Z 1024.
Proof.
  intros Hprod Hq. split; [| split; vm_compute; reflexivity].
  assert (Hmain : exists k j : nat,
             fftN_of sampleRate windowSizeInSecs = of_Z (pow2 k)
             /\ 512 <= pow2 k /\ least_exponent q j
             /\ pow2 j <= pow2 k /\ pow2 k = Z.max 512 (pow2 j)).
  { unfold fftN_of. rewrite Hprod.
    destruct (calcClosestPowerOf2Gt_spec q Hq) as (j & Hj & Hleast).
    rewrite Hj. unfold of_Z at 1 2.
    destruct (Fin (inject_Z (pow2 j)) <? Fin (inject_Z 512))%num eqn:Hlt.
    - apply ltb_fin in Hlt. rewrite <- Zlt_Qlt in Hlt.
      exists 9%nat, j. change (pow2 9) with 512.
      repeat split; try apply Hleast; lia.
    - apply ltb_fin_false in Hlt. rewrite <- Zle_Qle in Hlt.
      exists j, j. repeat split; try apply Hleast; lia. }
  destruct Hmain as (k & j & Hfft & Hk & Hleast & Hjk & Hmax).
  exists k, j. split; [exact Hfft |]. split; [| tauto].
  rewrite Hfft. exists k. split; [reflexivity | exact Hk].
Qed.

Lemma fftN_power_of_two_witness :
  exists q : Q,
    (of_Z 44100 * lit (5 # 1000))%num = Fin q
    /\ (q <= inject_Z (pow2 1023))%Q
    /\ spec_fftSize (fftN_of (of_Z 44100) (lit (5 # 1000))).
Proof.
  eexists. split; [vm_compute; reflexivity |].
  split; [vm_compute; discriminate |].
  refine (let '(ex_intro _ k (ex_intro _ j (conj _ (conj Hspec _)))) :=
            proj1 (fftN_power_of_two (of_Z 44100) (lit (5 # 1000)) _ _ _) in Hspec).
  - vm_compute. reflexivity.
  - vm_compute. discriminate.
Defined.

(** C5, the input the claim leaves out: a product above 2^1023 is finite,
    yet no power of two of a double reaches it; the loop runs until the power
    overflows and the FFT size is Infinity, which is no power of two. *)
Lemma fftN_power_of_two_counterexample :
  (of_Z 16000 * of_Z (2 ^ 1010))%num = of_Z (125 * 2 ^ 1017)
  /\ fftN_of (of_Z 16000) (of_Z (2 ^ 1010)) = PInf
  /\ ~ spec_fftSize (fftN_of (of_Z 16000) (of_Z (2 ^ 1010))).
Proof.
  assert (Hfft : fftN_of (of_Z 16000) (of_Z (2 ^ 1010)) = PInf)
    by (vm_compute; reflexivity).
  split; [vm_compute; reflexivity |]. split; [exact Hfft |].
  rewrite Hfft. intros (k & Hk & _). discriminate Hk.
Qed.

(** ** Typed arrays and the padded samples *)

Section TypedArrays.

Context {A : Type}.

Lemma typed_set_zero (target source : list A) :
  (List.length source <= List.length target)%nat ->
  typed_set target source 0 = Some (source ++ skipn (List.length source) target).
Proof.
  intros Hfit. unfold typed_set. cbn [Nat.add firstn app].
  destruct (Nat.leb_spec (List.length source) (List.length target)); [reflexivity | lia].
Qed.

Lemma typed_set_fits (target source : list A) (offset : nat) :
  (offset + List.length source <= List.length target)%nat ->
  typed_set target source offset
  = Some (firstn offset target ++ source ++ skipn (offset + List.length source) target).
Proof.
  intros Hfit. unfold typed_set.
  destruct (Nat.leb_spec (offset + List.length source) (List.length target));
    [reflexivity | lia].
Qed.

(** Setting three arrays one after the other into an array of their total
    length leaves their concatenation. *)
Lemma typed_set_three (z : A) (l d r : list A) :
  exists p1 p2,
    typed_set (repeat z (List.length l + List.length d + List.length r)) l 0 = Some p1
    /\ typed_set p1 d (List.length l) = Some p2
    /\ typed_set p2 r (List.length l + List.length d) = Some (l ++ d ++ r).
Proof.
  set (n := (List.length l + List.length d + List.length r)%nat).
  exists (l ++ skipn (List.length l) (repeat z n)).
  exists (l ++ d ++ skipn (List.length l + List.length d) (repeat z n)).
  assert (Hn : List.length (repeat z n) = n) by apply repeat_length.
  split; [apply typed_set_zero; lia |].
  split.
  - rewrite typed_set_fits by (rewrite length_app, length_skipn; lia).
    f_equal. rewrite firstn_app, firstn_all, Nat.sub_diag. cbn [firstn].
    rewrite app_nil_r. f_equal. f_equal.
    rewrite skipn_app, (skipn_all2 l) by lia. cbn [app].
    rewrite skipn_skipn. f_equal. lia.
  - rewrite typed_set_fits
      by (rewrite !length_app, length_skipn; lia).
    f_equal.
    replace (l ++ d ++ skipn (List.length l + List.length d) (repeat z n))
      with ((l ++ d) ++ skipn (List.length l + List.length d) (repeat z n))
      by (symmetry; apply app_assoc).
    rewrite firstn_app, firstn_all2 by (rewrite length_app; lia).
    replace (List.length l + List.length d - List.length (l ++ d))%nat with 0%nat
      by (rewrite length_app; lia).
    cbn [firstn]. rewrite app_nil_r, <- app_assoc. f_equal. f_equal.
    rewrite skipn_all2; [apply app_nil_r |].
    rewrite length_app, length_app, length_skipn. lia.
Qed.

Lemma relativeIndex_bounds (len : Z) (a : number) :
  0 <= len -> 0 <= relativeIndex len a <= len.
Proof.
  intros Hlen. unfold relativeIndex. destruct a; try lia.
  destruct (Z.ltb_spec (Qtrunc q) 0); lia.
Qed.

Lemma relativeIndex_of_Z (len z : Z) :
  0 <= z <= len -> relativeIndex len (of_Z z) = z.
Proof.
  intros Hz. unfold relativeIndex, of_Z, Qtrunc. cbn [inject_Z Qnum Qden].
  rewrite Z.quot_1_r.
  destruct (Z.ltb_spec z 0); lia.
Qed.

Lemma subarray_length (l : list A) (b e : number) :
  Z.of_nat (List.length (subarray l b e))
  = Z.max (relativeIndex (Z.of_nat (List.length l)) e
           - relativeIndex (Z.of_nat (List.length l)) b) 0.
Proof.
  unfold subarray.
  set (len := Z.of_nat (List.length l)).
  assert (Hb : 0 <= relativeIndex len b <= len).
  { unfold relativeIndex. destruct b; try lia.
    destruct (Z.ltb_spec (Qtrunc q) 0); lia. }
  assert (He : 0 <= relativeIndex len e <= len).
  { unfold relativeIndex. destruct e; try lia.
    destruct (Z.ltb_spec (Qtrunc q) 0); lia. }
  rewrite length_firstn, length_skipn. lia.
Qed.

End TypedArrays.

Section Padding.

Lemma ltb_of_Z (a b : Z) : (of_Z a <? of_Z b)%num = (a <? b).
Proof.
  unfold of_Z. destruct (Z.ltb_spec a b) as [Hlt | Hge].
  - apply ltb_fin. rewrite <- Zlt_Qlt. exact Hlt.
  - apply ltb_fin_false. rewrite <- Zle_Qle. exact Hge.
Qed.

(** The context taken before the range: the samples from the index that
    [subarray] derives from startSample - windowSizeInSamples / 2, or
    nothing. *)
Lemma left_padding_length (buffer : list sample) (sS : Z) (w : number) :
  0 <= sS <= Z.of_nat (List.length buffer) ->
  Z.of_nat (List.length (left_padding_of buffer (of_Z sS) w))
  = leftPad sS (Z.of_nat (List.length buffer)) w.
Proof.
  intros HsS. unfold left_padding_of, leftPad.
  destruct (of_Z sS >? w / 2)%num; [| reflexivity].
  rewrite subarray_length, relativeIndex_of_Z by exact HsS. lia.
Qed.

Lemma leftPad_bounds (sS total : Z) (w : number) :
  0 <= sS -> 0 <= total -> 0 <= leftPad sS total w <= sS.
Proof.
  intros HsS Htotal. unfold leftPad.
  destruct (of_Z sS >? w / 2)%num; [| lia].
  pose proof (relativeIndex_bounds total (of_Z sS - w / 2)%num Htotal). lia.
Qed.

(** When half the window is a whole number of samples, the left context is
    that number of samples, or nothing. *)
Lemma leftPad_whole (sS total h : Z) (w : number) :
  0 <= sS <= total -> sS < 2 ^ 53 -> 0 <= h -> (w / 2)%num = of_Z h ->
  leftPad sS total w = if h <? sS then h else 0.
Proof.
  intros HsS Hdouble Hh Hw. unfold leftPad, Num.gtb. rewrite Hw, ltb_of_Z.
  destruct (Z.ltb_spec h sS) as [Hlt | Hge]; [| reflexivity].
  rewrite sub_of_Z, relativeIndex_of_Z by lia. lia.
Qed.

Lemma pow2_half (k : nat) : (1 <= k)%nat -> pow2 k = 2 * (pow2 k / 2) /\ 1 <= pow2 k / 2.
Proof.
  intros Hk. unfold pow2.
  replace (Z.of_nat k) with (1 + Z.of_nat (k - 1)) by lia.
  rewrite Z.pow_add_r, Z.pow_1_r by lia.
  replace (2 * 2 ^ Z.of_nat (k - 1) / 2) with (2 ^ Z.of_nat (k - 1))
    by (symmetry; rewrite Z.mul_comm; apply Z.div_mul; lia).
  split; [reflexivity |].
  pose proof (pow2_pos (k - 1)) as Hpos. unfold pow2 in Hpos. lia.
Qed.

(** The end of the right context, endSample + fftN / 2 - 1, is computed
    exactly while the FFT size is at most 2^52 ... *)
Lemma right_end_exact (eS : Z) (k : nat) :
  0 <= eS < 2 ^ 52 -> (1 <= k <= 52)%nat ->
  (of_Z eS + of_Z (pow2 k) / 2 - 1)%num = of_Z (eS + pow2 k / 2 - 1).
Proof.
  intros HeS Hk. destruct (pow2_half k) as [Heven Hhalf]; [lia |].
  assert (Hpow : pow2 k <= 2 ^ 52) by (unfold pow2; apply Z.pow_le_mono_r; lia).
  rewrite (div_of_Z (pow2 k) 2 (pow2 k / 2)) by lia.
  rewrite add_of_Z by lia. rewrite sub_of_Z by lia. reflexivity.
Qed.

(** ... and beyond that it is at least 2^52 - 1, or Infinity. *)
Lemma right_end_large (eS : Z) (k : nat) :
  0 <= eS -> (52 < k)%nat ->
  at_least (2 ^ 52 - 1) (of_Z eS + of_Z (pow2 k) / 2 - 1)%num.
Proof.
  intros HeS Hk. destruct (pow2_half k) as [Heven Hhalf]; [lia |].
  assert (Hpow : 2 ^ 53 <= pow2 k) by (unfold pow2; apply Z.pow_le_mono_r; lia).
  apply (sub_at_least 1 (2 ^ 52)); [lia | lia |].
  apply add_at_least; [exact HeS | lia |].
  unfold Num.div, of_Z at 1 2. rewrite Qeq_bool_inject_Z by lia.
  apply round64_at_least; [lia |].
  assert (Hq : (inject_Z (pow2 k) / inject_Z 2 == inject_Z (pow2 k / 2))%Q).
  { rewrite Heven at 1. rewrite inject_Z_mult. change (inject_Z 2) with 2%Q. field. }
  rewrite Hq, <- Zle_Qle. lia.
Qed.

(** The context taken after the range: half the FFT size less one, or
    nothing. *)
Lemma right_padding_length (buffer : list sample) (eS : Z) (k : nat) :
  0 <= eS <= Z.of_nat (List.length buffer) -> (1 <= k)%nat ->
  Z.of_nat (List.length buffer) < 2 ^ 52 ->
  Z.of_nat (List.length (right_padding_of buffer (of_Z eS) (of_Z (pow2 k))))
  = rightPad eS (Z.of_nat (List.length buffer)) (pow2 k).
Proof.
  intros HeS Hk Hlen. unfold right_padding_of, rightPad, of_nat.
  destruct (pow2_half k Hk) as [Heven Hhalf].
  destruct (le_lt_dec k 52) as [Hsmall | Hlarge].
  - rewrite right_end_exact by lia. rewrite ltb_of_Z.
    destruct (Z.ltb_spec (eS + pow2 k / 2 - 1) (Z.of_nat (List.length buffer)));
      [| reflexivity].
    rewrite subarray_length, !relativeIndex_of_Z by lia. lia.
  - rewrite (at_least_not_below _ (2 ^ 52 - 1)) by (try apply right_end_large; lia).
    assert (Hpow : 2 ^ 53 <= pow2 k) by (unfold pow2; apply Z.pow_le_mono_r; lia).
    destruct (Z.ltb_spec (eS + pow2 k / 2 - 1) (Z.of_nat (List.length buffer)));
      [lia | reflexivity].
Qed.

Lemma data_length (buffer : list sample) (sS eS : Z) :
  0 <= sS <= eS -> eS <= Z.of_nat (List.length buffer) ->
  Z.of_nat (List.length (subarray buffer (of_Z sS) (of_Z eS))) = eS - sS.
Proof.
  intros Hs He. rewrite subarray_length, !relativeIndex_of_Z by lia. lia.
Qed.

Lemma paddedSamples_concat (buffer : list sample) (sS eS w fftN : number) :
  paddedSamples_of buffer sS eS w fftN
  = Some (left_padding_of buffer sS w ++ subarray buffer sS eS
          ++ right_padding_of buffer eS fftN).
Proof.
  unfold paddedSamples_of. cbv zeta.
  destruct (typed_set_three (A := sample) 0%Q (left_padding_of buffer sS w) (subarray buffer sS eS)
              (right_padding_of buffer eS fftN)) as (p1 & p2 & H1 & H2 & H3).
  rewrite H1, H2. exact H3.
Qed.

End Padding.

(** C1, as the code has it.  For a sample range 0 <= startSample < endSample
    <= totalSamples in a signal of fewer than 2^52 samples, any
    windowSizeInSamples and an FFT size 2^k with k >= 1, the padded buffer is
    the left context, the visible samples and the right context one after the
    other, of length leftPad + (endSample - startSample) + rightPad, where
    each side takes all of its context or none.  leftPad is 0 unless
    startSample > windowSizeInSamples/2; then it is startSample less the
    integer part of the double startSample - windowSizeInSamples/2, which is
    between 0 and startSample, and is windowSizeInSamples/2 whenever that is
    a whole number.  rightPad is fftSize/2 - 1 when endSample + fftSize/2 - 1
    < totalSamples and 0 otherwise.  So startSample = 0 gives leftPad = 0,
    endSample = totalSamples gives rightPad = 0, and startSample = 100 with
    windowSizeInSamples = 1000 gives leftPad = 0.  With a window of 0.021 s
    at 48 kHz (1008.0000000000001 samples) leftPad is 505 at startSample
    1000 and 504 at startSample 1600: the subtraction is rounded. *)
Theorem paddedSamples_length (buffer : list sample) (sS eS : Z) (w : number) (k : nat) :
  0 <= sS < eS -> eS <= Z.of_nat (List.length buffer) -> (1 <= k)%nat ->
  Z.of_nat (List.length buffer) < 2 ^ 52 ->
  let total := Z.of_nat (List.length buffer) in
  (exists p : list sample,
      paddedSamples_of buffer (of_Z sS) (of_Z eS) w (of_Z (pow2 k)) = Some p
      /\ p = left_padding_of buffer (of_Z sS) w
             ++ subarray buffer (of_Z sS) (of_Z eS)
             ++ right_padding_of buffer (of_Z eS) (of_Z (pow2 k))
      /\ Z.of_nat (List.length p)
         = leftPad sS total w + (eS - sS) + rightPad eS total (pow2 k))
  /\ 0 <= leftPad sS total w <= sS
  /\ (sS = 0 -> leftPad sS total w = 0)
  /\ (eS = total -> rightPad eS total (pow2 k) = 0)
  /\ (forall h : Z, 0 <= h -> (w / 2)%num = of_Z h ->
        leftPad sS total w = if h <? sS then h else 0)
  /\ leftPad 100 total (of_Z 1000) = 0
  /\ leftPad 1000 48000 (lit (21 # 1000) * of_Z 48000) = 505
  /\ leftPad 1600 48000 (lit (21 # 1000) * of_Z 48000) = 504.
Proof.
  intros Hs He Hk Hlen total.
  pose proof (leftPad_bounds sS total w ltac:(lia) ltac:(lia)) as Hbounds.
  split; [| split; [exact Hbounds | split; [| split; [| split; [| split; [| split]]]]]].
  - eexists. split; [apply paddedSamples_concat |]. split; [reflexivity |].
    rewrite !length_app, !Nat2Z.inj_add.
    rewrite left_padding_length, right_padding_length, data_length by lia.
    subst total. lia.
  - intros ->. lia.
  - intros ->. unfold rightPad. destruct (pow2_half k Hk) as [_ Hhalf].
    destruct (Z.ltb_spec (total + pow2 k / 2 - 1) total); [lia | reflexivity].
  - intros h Hh Hw. apply leftPad_whole; try assumption; subst total; lia.
  - vm_compute. reflexivity.
  - vm_compute. reflexivity.
  - vm_compute. reflexivity.
Qed.

Lemma paddedSamples_length_witness :
  let buffer := repeat 0%Q 2000 in
  exists p : list sample,
    paddedSamples_of buffer (of_Z 1000) (of_Z 1200) (Fin (441 # 2)) (of_Z (pow2 9)) = Some p
    /\ p = left_padding_of buffer (of_Z 1000) (Fin (441 # 2))
           ++ subarray buffer (of_Z 1000) (of_Z 1200)
           ++ right_padding_of buffer (of_Z 1200) (of_Z (pow2 9))
    /\ Z.of_nat (List.length p)
       = leftPad 1000 (Z.of_nat (List.length buffer)) (Fin (441 # 2)) + (1200 - 1000)
         + rightPad 1200 (Z.of_nat (List.length buffer)) (pow2 9).
Proof.
  refine (proj1 (paddedSamples_length (repeat 0%Q 2000) 1000 1200 (Fin (441 # 2)) 9 _ _ _ _)).
  - lia.
  - rewrite repeat_length. lia.
  - lia.
  - rewrite repeat_length. lia.
Defined.

(** C1 as claimed fails.  With 2000 samples at 16 kHz, a window of 1/16 s
    (1000 samples, FFT size 1024) and the range {100, 200}, the buffer sent to
    the worker holds 611 samples: no left context (100 is not above 500), 100
    visible samples and 511 of right context.  The claimed length is
    min(100, 500) + 100 + min(1800, 511) = 711. *)
Lemma paddedSamples_length_counterexample :
  exists rq : Request,
    effects_of (render (viewport 100 100) (dirty_plugin long_window)) = [Tell rq]
    /\ old_sS (plugin_of (render (viewport 100 100) (dirty_plugin long_window))) = of_Z 100
    /\ old_eS (plugin_of (render (viewport 100 100) (dirty_plugin long_window))) = of_Z 200
    /\ rq_fftN rq = of_Z 1024
    /\ left_padding_of (repeat 0%Q 2000) (of_Z 100) (of_Z 1000) = []
    /\ List.length (rq_audioBuffer rq) = 611%nat
    /\ spec_paddedLength 100 200 2000 1000 1024 == 711
    /\ ~ (inject_Z (Z.of_nat (List.length (rq_audioBuffer rq)))
          == spec_paddedLength 100 200 2000 1000 1024).
Proof.
  eexists. split; [vm_compute; reflexivity |].
  repeat split; try (vm_compute; reflexivity).
  vm_compute. discriminate.
Qed.

(** ** The shape of a tick *)

Ltac run :=
  cbv beta iota zeta delta
    [bind this modify call ret throw deref orThrow requestAnimationFrame getChannelData
     createImageData].

Lemma render_tick (h : Host) (s : Plugin) : tick h s (render h s).
Proof.
  unfold render. run.
  destruct (terminated s) eqn:Hterm; [apply tick_terminated; assumption |].
  destruct (update_needed s) eqn:Hdirty; cbn [negb];
    [| apply tick_idle; assumption].
  destruct (wavesurfer s) as [ws |] eqn:Hws; [| apply tick_detached; assumption].
  assert (Hws' : wavesurfer s <> None) by congruence.
  destruct (decodedData h) as [d |] eqn:Hdata;
    [| apply tick_undecoded; assumption].
  fold (sameRange h d s).
  destruct (sameRange h d s) eqn:Hsame.
  { apply (tick_unmoved h s d); assumption. }
  destruct (wrapper s) as [wr |] eqn:Hwr; cbn [app];
    [| eapply (tick_thrown h s d); eauto ].
  destruct (options s) as [opts |] eqn:Hopts; cbn [app];
    [| eapply (tick_thrown h s d); eauto ].
  destruct (nth_error (channelData d) (channel opts)) as [buffer |] eqn:Hch; cbn [app];
    [| eapply (tick_thrown h s d); eauto 6 ].
  rewrite paddedSamples_concat. cbn [app].
  destruct (spectroWorker s) as [wk |] eqn:Hwk; cbn [app];
    [| eapply (tick_thrown h s d); eauto ].
  apply (tick_submitted h s d opts buffer); try assumption; try congruence.
  apply paddedSamples_concat.
Qed.

Lemma render_terminated (h : Host) (s : Plugin) :
  terminated s = true -> render h s = (Normal tt, s, []).
Proof. intros Hterm. unfold render. run. rewrite Hterm. reflexivity. Qed.

Lemma render_idle (h : Host) (s : Plugin) :
  terminated s = false -> update_needed s = false ->
  render h s = (Normal tt, s, [RequestAnimationFrame]).
Proof. intros Hterm Hdirty. unfold render. run. rewrite Hterm, Hdirty. reflexivity. Qed.

(** A tick sends at most one request, and requests no frame when it does. *)
Lemma tick_effects (h : Host) (s : Plugin) (out : completion unit * Plugin * list effect) :
  tick h s out ->
  (tells_in (effects_of out) = 0%nat /\ frames_in (effects_of out) <= 1)%nat
  \/ (tells_in (effects_of out) = 1%nat /\ frames_in (effects_of out) = 0%nat).
Proof. intros T. destruct T; cbn; auto. Qed.

Lemma render_unmoved (h : Host) (s : Plugin) (d : AudioBuffer) :
  terminated s = false -> update_needed s = true -> wavesurfer s <> None ->
  decodedData h = Some d -> sameRange h d s = true ->
  render h s = (Normal tt, set_update_needed false s, [RequestAnimationFrame]).
Proof.
  intros Hterm Hdirty Hws Hdata Hsame. unfold render. run.
  rewrite Hterm, Hdirty. cbn [negb].
  destruct (wavesurfer s); [| congruence].
  rewrite Hdata. fold (sameRange h d s). rewrite Hsame. reflexivity.
Qed.

Lemma render_submits (h : Host) (s : Plugin) (d : AudioBuffer) (opts : Options)
  (buffer : list sample) :
  terminated s = false -> update_needed s = true -> wavesurfer s <> None ->
  decodedData h = Some d -> sameRange h d s = false ->
  wrapper s <> None -> options s = Some opts -> spectroWorker s <> None ->
  nth_error (channelData d) (channel opts) = Some buffer ->
  let sS := fst (sampleRange h (of_nat (ab_length d))) in
  let eS := snd (sampleRange h (of_nat (ab_length d))) in
  let w := (windowSizeInSecs opts * sampleRate d)%num in
  let fftN := fftN_of (sampleRate d) (windowSizeInSecs opts) in
  render h s
  = (Normal tt, drawing h sS eS s,
     [Tell (request_of h s d opts buffer sS eS
              (left_padding_of buffer sS w ++ subarray buffer sS eS
               ++ right_padding_of buffer eS fftN))]).
Proof.
  intros Hterm Hdirty Hws Hdata Hsame Hwr Hopts Hwk Hch sS eS w fftN.
  unfold render. run. rewrite Hterm, Hdirty. cbn [negb].
  destruct (wavesurfer s); [| congruence].
  rewrite Hdata. fold (sameRange h d s). rewrite Hsame.
  destruct (wrapper s); [| congruence]. cbn [app].
  rewrite Hopts. cbn [app]. rewrite Hch. cbn [app].
  rewrite paddedSamples_concat. cbn [app].
  destruct (spectroWorker s); [| congruence].
  reflexivity.
Qed.

(** ** The shape of a response *)

Lemma resized_sameSize (s : Plugin) : resized s = false <-> sameSize s.
Proof.
  unfold resized, sameSize.
  rewrite Bool.orb_false_iff, !Bool.negb_false_iff, !Z.eqb_eq. reflexivity.
Qed.

Lemma Uint8ClampedArray_length (img : list Z) :
  List.length (Uint8ClampedArray img) = List.length img.
Proof. apply length_map. Qed.

(** Values that are bytes already pass the clamp unchanged. *)
Lemma Uint8ClampedArray_bytes (img : list Z) :
  Forall (fun v => 0 <= v <= 255) img -> Uint8ClampedArray img = img.
Proof.
  induction 1 as [| v img Hv _ IH]; [reflexivity |].
  unfold Uint8ClampedArray in *. cbn [map]. rewrite IH. f_equal. lia.
Qed.

Lemma Uint8ClampedArray_clamps (img : list Z) :
  Forall (fun v => 0 <= v <= 255) (Uint8ClampedArray img).
Proof.
  unfold Uint8ClampedArray. apply Forall_map. apply Forall_forall. intros v _. lia.
Qed.

(** The canvas has no pixels and the image another size: line 241 throws,
    and nothing has been touched. *)
Lemma onResponse_unfit (img : list Z) (s : Plugin) :
  unfit s = true -> onResponse img s = (Throw IndexSizeError, s, []).
Proof.
  unfold unfit. intros Hunfit. apply Bool.andb_true_iff in Hunfit.
  destruct Hunfit as [Hre Hzero].
  unfold onResponse. run. fold (resized s). rewrite Hre, Hzero. reflexivity.
Qed.

Lemma onResponse_fits (img : list Z) (s : Plugin) :
  unfit s = false ->
  (List.length img <= List.length (img_data (imageData (ensured s))))%nat ->
  onResponse img s
  = (Normal tt, set_imageData (filled img s) (ensured s),
     [PutImageData (filled img s); RequestAnimationFrame]).
Proof.
  intros Hunfit Hfit. unfold filled, ensured in *. rewrite Hunfit in *.
  unfold unfit in Hunfit. unfold onResponse. run. fold (resized s).
  unfold typed_set. rewrite Uint8ClampedArray_length.
  destruct (resized s); cbn [andb negb] in *;
    [rewrite Hunfit |];
    cbn [app imageData set_imageData set_allocated img_data Nat.add firstn] in *;
    match goal with
    | |- context [(?a <=? ?b)%nat] => destruct (Nat.leb_spec a b); [reflexivity | lia]
    end.
Qed.

Lemma onResponse_overflows (img : list Z) (s : Plugin) :
  unfit s = false ->
  (List.length (img_data (imageData (ensured s))) < List.length img)%nat ->
  onResponse img s = (Throw RangeError, ensured s, []).
Proof.
  intros Hunfit Hover. unfold ensured in *. rewrite Hunfit in *.
  unfold unfit in Hunfit. unfold onResponse. run. fold (resized s).
  unfold typed_set. rewrite Uint8ClampedArray_length.
  destruct (resized s); cbn [andb negb] in *;
    [rewrite Hunfit |];
    cbn [app imageData set_imageData set_allocated img_data Nat.add firstn] in *;
    match goal with
    | |- context [(?a <=? ?b)%nat] => destruct (Nat.leb_spec a b); [lia | reflexivity]
    end.
Qed.

Lemma ensured_unfit (s : Plugin) : unfit s = true -> ensured s = s.
Proof. intros Hunfit. unfold ensured. rewrite Hunfit, Bool.andb_false_r. reflexivity. Qed.

Lemma set_imageData_same (s : Plugin) :
  set_imageData (with_data (img_data (imageData s)) (imageData s)) s = s.
Proof. destruct s as [? ? ? ? [? ? ? ?] ? ? ? ? ? ? ?]. reflexivity. Qed.

(** Whether it completes or not, a response leaves the plugin of lines
    240-241 but for the bytes of the image. *)
Lemma onResponse_plugin (img : list Z) (s : Plugin) :
  exists data : list Z,
    plugin_of (onResponse img s)
    = set_imageData (with_data data (imageData (ensured s))) (ensured s)
    /\ List.length data = List.length (img_data (imageData (ensured s))).
Proof.
  destruct (unfit s) eqn:Hunfit.
  { rewrite (onResponse_unfit img s Hunfit), (ensured_unfit s Hunfit).
    exists (img_data (imageData s)). split; [| reflexivity].
    cbn [plugin_of fst snd]. symmetry. apply set_imageData_same. }
  destruct (le_lt_dec (List.length img) (List.length (img_data (imageData (ensured s)))))
    as [Hfit | Hover].
  - rewrite (onResponse_fits img s Hunfit Hfit). eexists. split; [reflexivity |].
    rewrite length_app, length_skipn, Uint8ClampedArray_length. lia.
  - rewrite (onResponse_overflows img s Hunfit Hover).
    exists (img_data (imageData (ensured s))). split; [| reflexivity].
    cbn [plugin_of fst snd]. symmetry. apply set_imageData_same.
Qed.

Lemma response_effects (img : list Z) (s : Plugin) :
  tells_in (effects_of (onResponse img s)) = 0%nat
  /\ (frames_in (effects_of (onResponse img s)) <= 1)%nat
  /\ (result_of (onResponse img s) = Normal tt ->
      frames_in (effects_of (onResponse img s)) = 1%nat).
Proof.
  destruct (unfit s) eqn:Hunfit.
  { rewrite (onResponse_unfit img s Hunfit). cbn. repeat split; auto. discriminate. }
  destruct (le_lt_dec (List.length img) (List.length (img_data (imageData (ensured s)))))
    as [Hfit | Hover].
  - rewrite (onResponse_fits img s Hunfit Hfit). cbn. auto.
  - rewrite (onResponse_overflows img s Hunfit Hover). cbn. repeat split; auto. discriminate.
Qed.

Lemma tick_keeps_buffer (h : Host) (s : Plugin)
  (out : completion unit * Plugin * list effect) :
  tick h s out ->
  imageData (plugin_of out) = imageData s /\ allocated (plugin_of out) = allocated s.
Proof. intros T. destruct T; cbn [plugin_of fst snd]; auto. Qed.

Lemma constructor_buffer (opts : Options) (p : Plugin) :
  constructor opts = Normal p ->
  sameSize p /\ (img_id (imageData p) < allocated p)%nat.
Proof.
  unfold constructor.
  destruct (windowNum_of (window opts)); [| discriminate].
  intros [= <-]. unfold sameSize. cbn. split; [split; reflexivity | lia].
Qed.

Lemma onResponse_buffer (img : list Z) (s : Plugin) :
  (img_id (imageData s) < allocated s)%nat ->
  (img_id (imageData (plugin_of (onResponse img s)))
   < allocated (plugin_of (onResponse img s)))%nat.
Proof.
  intros Hold. destruct (onResponse_plugin img s) as (data & -> & _).
  unfold ensured. destruct (resized s && negb (unfit s)); cbn; lia.
Qed.




(** ** Detach *)

Lemma destroy_live (s : Plugin) :
  spectroWorker s <> None ->
  destroy s
  = (Normal tt, set_spectroWorker None (released s),
     match wrapper s with
     | Some _ => [UnAll; WrapperRemove; Kill; SuperDestroy]
     | None => [UnAll; Kill; SuperDestroy]
     end).
Proof.
  intros Hwk. unfold destroy, released. run. cbn.
  destruct (wrapper s) as [wr |]; cbn;
    destruct (spectroWorker s) as [wk |]; try congruence; reflexivity.
Qed.

Lemma destroy_dead (s : Plugin) :
  spectroWorker s = None ->
  destroy s
  = (Throw TypeError, released s,
     match wrapper s with
     | Some _ => [UnAll; WrapperRemove]
     | None => [UnAll]
     end).
Proof.
  intros Hwk. unfold destroy, released. run. cbn.
  destruct (wrapper s) as [wr |] eqn:Hwr; cbn; rewrite Hwk; reflexivity.
Qed.

Lemma destroy_terminates (s : Plugin) :
  terminated (plugin_of (destroy s)) = true
  /\ spectroWorker (plugin_of (destroy s)) = None
  /\ wrapper (plugin_of (destroy s)) = None
  /\ tells_in (effects_of (destroy s)) = 0%nat
  /\ frames_in (effects_of (destroy s)) = 0%nat.
Proof.
  destruct (spectroWorker s) as [wk |] eqn:Hwk.
  - rewrite destroy_live by congruence. unfold released.
    destruct (wrapper s) eqn:Hwr; cbn; auto.
  - rewrite destroy_dead by exact Hwk. unfold released.
    destruct (wrapper s) eqn:Hwr; cbn; auto.
Qed.

(** C8 fails on the code.  Whatever the plugin, a second call of [destroy]
    throws a TypeError: the first call left [spectroWorker] null, and the
    second reads [kill] from it.  The plugin stays terminated, and of the
    second call only [unAll] has run. *)
Theorem destroy_twice_throws (s : Plugin) :
  let once := plugin_of (destroy s) in
  result_of (destroy once) = Throw TypeError
  /\ effects_of (destroy once) = [UnAll]
  /\ terminated (plugin_of (destroy once)) = true
  /\ destroy (plugin_of (destroy (dirty_plugin defaultOptions)))
     = (Throw TypeError, plugin_of (destroy (dirty_plugin defaultOptions)), [UnAll]).
Proof.
  intros once.
  destruct (destroy_terminates s) as (Hterm & Hwk & Hwr & _).
  fold once in Hterm, Hwk, Hwr.
  rewrite (destroy_dead once Hwk), Hwr.
  split; [reflexivity |]. split; [reflexivity |]. split.
  - cbn [plugin_of fst snd]. unfold released. rewrite Hwr. reflexivity.
  - rewrite (destroy_live (dirty_plugin defaultOptions)) by discriminate.
    cbn [plugin_of fst snd]. rewrite destroy_dead by reflexivity.
    reflexivity.
Qed.


Lemma detached_buffer_fits :
  (4 <= List.length (img_data (imageData
          (ensured (plugin_of (destroy (dirty_plugin defaultOptions)))))))%nat.
Proof.
  cbv beta iota zeta delta
    [ensured resized unfit andb plugin_of destroy dirty_plugin fresh_plugin defaultOptions
     bind this modify call ret throw deref new_canvas
     set_update_needed set_wavesurfer set_terminated set_options set_wrapper
     set_spectroWorker set_imageData set_allocated
     imageData canvas img_width img_height img_data canvas_width canvas_height
     wrapper spectroWorker options windowNum update_needed old_sS old_eS terminated
     wavesurfer allocated fst snd negb orb Z.eqb Pos.eqb].
  rewrite repeat_length. cbn. lia.
Qed.

(** C4, as the code has it.  The handler has no test of [terminated]: a
    response handled after detach is handled like any other.  When its
    values fit the buffer and the canvas has pixels (or the size of the
    buffer), they are clamped to bytes and copied into the image buffer
    (reallocated first if the canvas was resized), the buffer is blitted to
    the canvas, and one animation frame is requested.  The plugin stays
    terminated, so that frame's tick returns at once: it changes nothing,
    sends nothing and schedules nothing. *)
Theorem late_response_handled (img : list Z) (s : Plugin) :
  terminated s = true ->
  unfit s = false ->
  (List.length img <= List.length (img_data (imageData (ensured s))))%nat ->
  let s' := plugin_of (onResponse img s) in
  onResponse img s = (Normal tt, s', [PutImageData (imageData s'); RequestAnimationFrame])
  /\ img_data (imageData s')
     = Uint8ClampedArray img ++ skipn (List.length img) (img_data (imageData (ensured s)))
  /\ (Forall (fun v => 0 <= v <= 255) img ->
      img_data (imageData s')
      = img ++ skipn (List.length img) (img_data (imageData (ensured s))))
  /\ terminated s' = true
  /\ forall h : Host, render h s' = (Normal tt, s', []).
Proof.
  intros Hterm Hunfit Hfit s'. subst s'. rewrite (onResponse_fits img s Hunfit Hfit).
  cbn [plugin_of fst snd].
  assert (Hterm' : terminated (set_imageData (filled img s) (ensured s)) = true).
  { unfold ensured. destruct (resized s && negb (unfit s)); cbn; exact Hterm. }
  split; [reflexivity |]. split; [reflexivity |]. split.
  - intros Hbytes. cbn [imageData set_imageData filled with_data img_data].
    rewrite (Uint8ClampedArray_bytes img Hbytes). reflexivity.
  - split; [exact Hterm' |]. intros h. apply render_terminated. exact Hterm'.
Qed.

Lemma late_response_handled_witness :
  let s := plugin_of (destroy (dirty_plugin defaultOptions)) in
  let s' := plugin_of (onResponse [255; 0; 0; 255] s) in
  onResponse [255; 0; 0; 255] s
  = (Normal tt, s', [PutImageData (imageData s'); RequestAnimationFrame]).
Proof.
  refine (proj1 (late_response_handled [255; 0; 0; 255]
                   (plugin_of (destroy (dirty_plugin defaultOptions))) _ _ _)).
  - reflexivity.
  - reflexivity.
  - exact detached_buffer_fits.
Defined.

(** C4 as claimed fails.  After detach, a response of one red pixel is not
    discarded: its bytes replace the first pixel of the image buffer, the
    buffer is blitted, and an animation frame is requested. *)
Lemma late_response_counterexample :
  let s := plugin_of (destroy (dirty_plugin defaultOptions)) in
  let s' := plugin_of (onResponse [255; 0; 0; 255] s) in
  terminated s = true
  /\ effects_of (onResponse [255; 0; 0; 255] s)
     = [PutImageData (imageData s'); RequestAnimationFrame]
  /\ firstn 4 (img_data (imageData s)) = [0; 0; 0; 0]
  /\ firstn 4 (img_data (imageData s')) = [255; 0; 0; 255]
  /\ ~ discarded [255; 0; 0; 255] s.
Proof.
  intros s s'.
  assert (Heff : effects_of (onResponse [255; 0; 0; 255] s)
                 = [PutImageData (imageData s'); RequestAnimationFrame]).
  { subst s'.
    rewrite onResponse_fits; [reflexivity | reflexivity | exact detached_buffer_fits]. }
  split; [reflexivity |]. split; [exact Heff |].
  split; [vm_compute; reflexivity |]. split; [vm_compute; reflexivity |].
  unfold discarded. intros Hdis. rewrite Hdis in Heff. discriminate Heff.
Qed.

(** ** Ticks that draw and ticks that skip *)

Lemma subarray_empty {A : Type} (l : list A) (a b : Z) :
  0 <= b <= a -> subarray l (of_Z a) (of_Z b) = [].
Proof.
  intros Hab. apply length_zero_iff_nil. apply Nat2Z.inj.
  rewrite subarray_length.
  set (len := Z.of_nat (List.length l)).
  unfold relativeIndex, of_Z, Qtrunc. cbn [inject_Z Qnum Qden].
  rewrite !Z.quot_1_r.
  destruct (Z.ltb_spec a 0), (Z.ltb_spec b 0); lia.
Qed.

(** C3, as the code has it.  [render] never tests whether the range is
    empty or inverted.  On a dirty tick with decoded audio whose range
    {a, b} has b <= a: if the range is the one drawn last, the tick is
    skipped and only requests the next frame; otherwise, in a live plugin
    whose channel exists, the range is stored and a request is sent to the
    worker, with no frame requested; its buffer is the two paddings around
    the visible samples, of which there are none when 0 <= b. *)
Theorem empty_range_submitted (h : Host) (s : Plugin) (d : AudioBuffer) (a b : Z) :
  terminated s = false -> update_needed s = true -> wavesurfer s <> None ->
  decodedData h = Some d ->
  sampleRange h (of_nat (ab_length d)) = (of_Z a, of_Z b) ->
  b <= a ->
  (sameRange h d s = true ->
   render h s = (Normal tt, set_update_needed false s, [RequestAnimationFrame]))
  /\ (sameRange h d s = false ->
      wrapper s <> None -> spectroWorker s <> None ->
      forall (opts : Options) (buffer : list sample),
        options s = Some opts ->
        nth_error (channelData d) (channel opts) = Some buffer ->
        exists rq : Request,
          render h s = (Normal tt, drawing h (of_Z a) (of_Z b) s, [Tell rq])
          /\ rq_audioBuffer rq
             = left_padding_of buffer (of_Z a) (windowSizeInSecs opts * sampleRate d)%num
               ++ subarray buffer (of_Z a) (of_Z b)
               ++ right_padding_of buffer (of_Z b)
                    (fftN_of (sampleRate d) (windowSizeInSecs opts))
          /\ (0 <= b -> subarray buffer (of_Z a) (of_Z b) = [])).
Proof.
  intros Hterm Hdirty Hws Hdata Hrange Hab. split.
  - intros Hsame. apply (render_unmoved h s d); assumption.
  - intros Hsame Hwr Hwk opts buffer Hopts Hch.
    eexists. split; [| split].
    + rewrite (render_submits h s d opts buffer) by assumption.
      rewrite Hrange. cbn [fst snd]. reflexivity.
    + reflexivity.
    + intros Hb. apply subarray_empty. lia.
Qed.

Lemma empty_range_submitted_witness :
  let h := viewport 0 0 in
  let s := dirty_plugin defaultOptions in
  let d := silence 2000 16000 in
  (sameRange h d s = true ->
   render h s = (Normal tt, set_update_needed false s, [RequestAnimationFrame]))
  /\ (sameRange h d s = false ->
      wrapper s <> None -> spectroWorker s <> None ->
      forall (opts : Options) (buffer : list sample),
        options s = Some opts ->
        nth_error (channelData d) (channel opts) = Some buffer ->
        exists rq : Request,
          render h s = (Normal tt, drawing h (of_Z 0) (of_Z 0) s, [Tell rq])
          /\ rq_audioBuffer rq
             = left_padding_of buffer (of_Z 0) (windowSizeInSecs opts * sampleRate d)%num
               ++ subarray buffer (of_Z 0) (of_Z 0)
               ++ right_padding_of buffer (of_Z 0)
                    (fftN_of (sampleRate d) (windowSizeInSecs opts))
          /\ (0 <= 0 -> subarray buffer (of_Z 0) (of_Z 0) = [])).
Proof.
  apply (empty_range_submitted (viewport 0 0) (dirty_plugin defaultOptions)
           (silence 2000 16000) 0 0).
  - reflexivity.
  - reflexivity.
  - discriminate.
  - reflexivity.
  - vm_compute. reflexivity.
  - lia.
Defined.

(** C3 as claimed fails.  A dirty tick of a new plugin over a container of
    no visible width computes the empty range {0, 0}; it is not skipped: a
    request goes to the worker and no frame is requested. *)
Lemma empty_range_counterexample :
  sampleRange (viewport 0 0) (of_nat 2000) = (of_Z 0, of_Z 0)
  /\ (exists rq : Request,
         effects_of (render (viewport 0 0) (dirty_plugin defaultOptions)) = [Tell rq])
  /\ ~ skipped (viewport 0 0) (dirty_plugin defaultOptions).
Proof.
  split; [vm_compute; reflexivity |]. split.
  - eexists. vm_compute. reflexivity.
  - unfold skipped. vm_compute. discriminate.
Qed.

(** ** Two ticks in a row *)

(** After any tick the plugin is terminated, or clean, or the tick threw
    before it read anything. *)
Lemma tick_settles (h : Host) (s : Plugin) (out : completion unit * Plugin * list effect) :
  tick h s out ->
  terminated (plugin_of out) = true
  \/ (terminated (plugin_of out) = false /\ update_needed (plugin_of out) = false)
  \/ (out = (Throw TypeError, s, []) /\ terminated s = false /\ update_needed s = true
      /\ wavesurfer s = None).
Proof.
  intros T. destruct T; cbn [plugin_of fst snd]; auto.
  right. right. auto.
Qed.

Lemma render_detached (h : Host) (s : Plugin) :
  terminated s = false -> update_needed s = true -> wavesurfer s = None ->
  render h s = (Throw TypeError, s, []).
Proof.
  intros Hterm Hdirty Hws. unfold render. run. rewrite Hterm, Hdirty, Hws. reflexivity.
Qed.

(** C6.  A tick run twice on the same viewport, nothing touching the plugin
    in between, sends at most one request, and the second tick sends none;
    when the plugin is not terminated and the first tick returns, the second
    is skipped: it only requests the next frame and leaves the plugin as it
    was.  After a tick that drew the range {1000, 2000}, a tick that computes
    {1000, 2000} again is skipped even if a redraw was asked in between. *)
Theorem tick_twice_submits_once (h : Host) (s : Plugin) :
  let first := render h s in
  let second := render h (plugin_of first) in
  tells_in (effects_of second) = 0%nat
  /\ (tells_in (effects_of first) + tells_in (effects_of second) <= 1)%nat
  /\ (terminated s = false -> result_of first = Normal tt ->
      second = (Normal tt, plugin_of first, [RequestAnimationFrame]))
  /\ (forall (h' : Host) (d d' : AudioBuffer),
         decodedData h = Some d -> decodedData h' = Some d' ->
         sampleRange h (of_nat (ab_length d)) = (of_Z 1000, of_Z 2000) ->
         sampleRange h' (of_nat (ab_length d')) = (of_Z 1000, of_Z 2000) ->
         tells_in (effects_of first) = 1%nat ->
         let redrawn := plugin_of (onRedraw (plugin_of first)) in
         update_needed redrawn = true
         /\ render h' redrawn = (Normal tt, plugin_of first, [RequestAnimationFrame])).
Proof.
  intros first second.
  pose proof (render_tick h s) as T. fold first in T.
  assert (Hsecond : tells_in (effects_of second) = 0%nat).
  { destruct (tick_settles h s first T) as [Hterm | [[Hterm Hclean] | (Hout & Hterm & Hdirty & Hws)]].
    - subst second. rewrite (render_terminated h _ Hterm). reflexivity.
    - subst second. rewrite (render_idle h _ Hterm Hclean). reflexivity.
    - subst second. rewrite Hout. cbn [plugin_of fst snd].
      rewrite (render_detached h s Hterm Hdirty Hws). reflexivity. }
  split; [exact Hsecond |]. split; [| split].
  - rewrite Hsecond. destruct (tick_effects h s first T) as [[H0 _] | [H1 _]]; lia.
  - intros Hlive Hret.
    destruct (tick_settles h s first T) as [Hterm | [[Hterm Hclean] | (Hout & _)]].
    + exfalso. destruct T; cbn in Hterm, Hret; congruence.
    + subst second. apply render_idle; assumption.
    + rewrite Hout in Hret. discriminate Hret.
  - intros h' d d' Hdata Hdata' Hrange Hrange' Hsent redrawn.
    destruct T; cbn [effects_of snd] in Hsent; try discriminate Hsent.
    assert (d0 = d) by congruence. subst d0.
    subst redrawn. cbn [plugin_of fst snd onRedraw modify].
    split; [reflexivity |].
    subst sS eS. rewrite Hrange. cbn [fst snd].
    rewrite (render_unmoved h' _ d'); try assumption; try reflexivity.
    unfold sameRange. rewrite Hrange'. reflexivity.
Qed.

Lemma tick_twice_submits_once_witness :
  let first := render (viewport 1000 1000) (dirty_plugin defaultOptions) in
  let redrawn := plugin_of (onRedraw (plugin_of first)) in
  update_needed redrawn = true
  /\ render (viewport 1000 1000) redrawn
     = (Normal tt, plugin_of first, [RequestAnimationFrame]).
Proof.
  apply (proj2 (proj2 (proj2
           (tick_twice_submits_once (viewport 1000 1000) (dirty_plugin defaultOptions))))
           (viewport 1000 1000) (silence 2000 16000) (silence 2000 16000)).
  - reflexivity.
  - reflexivity.
  - vm_compute. reflexivity.
  - vm_compute. reflexivity.
  - vm_compute. reflexivity.
Defined.

(** ** The visible range and the upper frequency *)



(** C10.  When the [upperFreq] option holds a falsy number (0 or NaN), the
    request of a tick carries upperFreq = sampleRate / 2, and the tick sends
    the very request it sends with the option left blank.  A request whose
    upper frequency is 0 (or NaN) never has it from the option: it is
    sampleRate / 2. *)
Theorem falsy_upperFreq_defaults (h : Host) (s : Plugin) (opts : Options)
  (u : number) (rq : Request) :
  options s = Some opts ->
  upperFreq opts = Some u ->
  truthy u = false ->
  effects_of (render h s) = [Tell rq] ->
  (exists d : AudioBuffer,
      decodedData h = Some d /\ rq_upperFreq rq = (sampleRate d / 2)%num)
  /\ effects_of (render h (set_options (Some (with_upperFreq None opts)) s)) = [Tell rq]
  /\ truthy (of_Z 0) = false
  /\ (forall (rate : number) (o : Options),
         truthy (upperFreq_of rate o) = false -> upperFreq_of rate o = (rate / 2)%num).
Proof.
  intros Hopts Hu Hfalsy Hsent.
  assert (Hzero : forall (rate : number) (o : Options),
             truthy (upperFreq_of rate o) = false -> upperFreq_of rate o = (rate / 2)%num).
  { intros rate o. unfold upperFreq_of.
    destruct (upperFreq o) as [v |]; [| reflexivity].
    destruct (truthy v) eqn:Hv; [congruence | reflexivity]. }
  assert (Hsame : forall rate : number,
             upperFreq_of rate opts = upperFreq_of rate (with_upperFreq None opts)).
  { intros rate. unfold upperFreq_of. rewrite Hu, Hfalsy. reflexivity. }
  pose proof (render_tick h s) as T.
  destruct T; cbn [effects_of snd] in Hsent; try discriminate Hsent.
  assert (opts0 = opts) by congruence. subst opts0.
  injection Hsent as <-.
  split; [| split; [| split; [reflexivity | exact Hzero]]].
  - exists d. split; [assumption |].
    cbn [rq_upperFreq request_of]. unfold upperFreq_of. rewrite Hu, Hfalsy. reflexivity.
  - rewrite (render_submits h _ d (with_upperFreq None opts) buffer); try assumption.
    + cbn [effects_of snd]. f_equal. f_equal.
      unfold request_of. cbn [windowSizeInSecs alpha lowerFreq dynRangeInDB transparency
        drawHeatMapColors preEmphasisFilterFactor heatMapColorAnchors invert with_upperFreq
        windowNum set_options].
      rewrite <- Hsame.
      subst sS eS.
      match goal with
      | Hp : paddedSamples_of _ _ _ _ _ = Some padded |- _ =>
          rewrite paddedSamples_concat in Hp; injection Hp as <-
      end.
      reflexivity.
    + reflexivity.
Qed.

Lemma falsy_upperFreq_defaults_witness :
  let h := viewport 0 100 in
  let s := dirty_plugin zero_upperFreq in
  effects_of (render h s) = [Tell first_request]
  /\ (exists d : AudioBuffer,
         decodedData h = Some d /\ rq_upperFreq first_request = (sampleRate d / 2)%num)
  /\ effects_of (render h (set_options (Some (with_upperFreq None zero_upperFreq)) s))
     = [Tell first_request].
Proof.
  intros h s.
  assert (Hsent : effects_of (render h s) = [Tell first_request])
    by (vm_compute; reflexivity).
  split; [exact Hsent |].
  destruct (falsy_upperFreq_defaults h s zero_upperFreq (of_Z 0) first_request
              eq_refl eq_refl eq_refl Hsent) as (Hhalf & Hblank & _).
  split; [exact Hhalf | exact Hblank].
Defined.

(** ** One request in flight *)

Lemma step_keeps_one (w w' : World) :
  (frames w + inFlight w <= 1)%nat -> step w w' -> (frames w' + inFlight w' <= 1)%nat.
Proof.
  intros Hone Hstep. destruct Hstep as [w n h Hframes | w n img Hflight | w | w];
    cbn [after frames inFlight].
  - destruct (tick_effects h (plugin w) _ (render_tick h (plugin w))) as [[H0 H1] | [H1 H0]];
      lia.
  - destruct (response_effects img (plugin w)) as (H0 & H1 & _). lia.
  - cbn. lia.
  - destruct (destroy_terminates (plugin w)) as (_ & _ & _ & H0 & H1). lia.
Qed.

Lemma reachable_one (w : World) : reachable w -> (frames w + inFlight w <= 1)%nat.
Proof.
  intros Hreach. induction Hreach as [opts p Hctor | w w' Hreach IH Hstep].
  - unfold constructor in Hctor.
    destruct (windowNum_of (window opts)); [| discriminate].
    injection Hctor as <-. cbn. lia.
  - exact (step_keeps_one w w' IH Hstep).
Qed.

(** In every state the loop can reach, the image buffer in use was
    allocated earlier: the premise of the buffer-reuse theorem always holds. *)
Lemma reachable_buffer_allocated (w : World) :
  reachable w -> (img_id (imageData (plugin w)) < allocated (plugin w))%nat.
Proof.
  intros Hreach. induction Hreach as [opts p Hctor | w w' Hreach IH Hstep].
  - destruct (constructor_buffer opts p Hctor) as [_ Hold].
    unfold constructor in Hctor.
    destruct (windowNum_of (window opts)); [| discriminate].
    injection Hctor as <-. cbn. lia.
  - destruct Hstep as [w n h Hframes | w n img Hflight | w | w];
      cbn [after plugin].
    + destruct (tick_keeps_buffer h (plugin w) _ (render_tick h (plugin w))) as [-> ->].
      exact IH.
    + apply onResponse_buffer. exact IH.
    + exact IH.
    + destruct (spectroWorker (plugin w)) as [wk |] eqn:Hwk.
      * rewrite destroy_live by congruence. unfold released.
        destruct (wrapper (plugin w)); exact IH.
      * rewrite destroy_dead by exact Hwk. unfold released.
        destruct (wrapper (plugin w)); exact IH.
Qed.

(** C2.  A tick sends at most one request, and a tick that sends one
    requests no animation frame.  The response handler sends nothing and,
    when it returns, has requested exactly one frame; the redraw handler and
    [destroy] request none.  So in every state the loop can reach, the queued
    frames and the requests in flight number at most one together: at most
    one request is in flight, and while it is no tick is queued; the step
    that queues the next tick is the handling of the response. *)
Theorem one_request_in_flight :
  (forall (h : Host) (s : Plugin),
      (tells_in (effects_of (render h s)) <= 1)%nat
      /\ (tells_in (effects_of (render h s)) = 1%nat ->
          frames_in (effects_of (render h s)) = 0%nat))
  /\ (forall (img : list Z) (s : Plugin),
         tells_in (effects_of (onResponse img s)) = 0%nat
         /\ (result_of (onResponse img s) = Normal tt ->
             frames_in (effects_of (onResponse img s)) = 1%nat))
  /\ (forall s : Plugin,
         frames_in (effects_of (onRedraw s)) = 0%nat
         /\ frames_in (effects_of (destroy s)) = 0%nat)
  /\ (forall w : World,
         reachable w ->
         (inFlight w <= 1)%nat /\ (inFlight w = 1%nat -> frames w = 0%nat))
  /\ (forall w w' : World,
         reachable w -> inFlight w = 1%nat -> step w w' -> frames w' = 1%nat ->
         exists img : list Z, w' = after (onResponse img (plugin w)) 0 0).
Proof.
  split; [| split; [| split; [| split]]].
  - intros h s.
    destruct (tick_effects h s _ (render_tick h s)) as [[H0 H1] | [H1 H0]]; lia.
  - intros img s. destruct (response_effects img s) as (H0 & _ & H1). auto.
  - intros s. split; [reflexivity |].
    destruct (destroy_terminates s) as (_ & _ & _ & _ & H). exact H.
  - intros w Hreach. pose proof (reachable_one w Hreach). lia.
  - intros w w' Hreach Hflight Hstep Hframe.
    pose proof (reachable_one w Hreach) as Hone.
    destruct Hstep as [w n h Hframes | w n img Hflight' | w | w].
    + lia.
    + exists img. replace (frames w) with 0%nat by lia.
      replace n with 0%nat by lia. reflexivity.
    + cbn in Hframe. lia.
    + cbn [after frames] in Hframe.
      destruct (destroy_terminates (plugin w)) as (_ & _ & _ & _ & H). lia.
Qed.

Lemma one_request_in_flight_witness :
  reachable drawing_world
  /\ inFlight drawing_world = 1%nat
  /\ frames drawing_world = 0%nat.
Proof.
  assert (Hreach : reachable drawing_world).
  { apply (reach_step redrawn_world).
    - apply (reach_step attached_world).
      + apply (reach_attach defaultOptions). reflexivity.
      + apply step_redraw.
    - apply (step_frame redrawn_world 0 (viewport 0 100)). reflexivity. }
  assert (Hflight : inFlight drawing_world = 1%nat) by (vm_compute; reflexivity).
  split; [exact Hreach |]. split; [exact Hflight |].
  exact (proj2 (proj1 (proj2 (proj2 (proj2 one_request_in_flight))) drawing_world Hreach)
           Hflight).
Defined.

(** * Further properties of the code *)

(** ** The constructor *)

Lemma windowNum_of_names (w : string) (n : Z) :
  windowNum_of w = Some n <->
  exists i : nat, nth_error window_names i = Some w /\ n = Z.of_nat i + 1.
Proof.
  split.
  - unfold windowNum_of.
    repeat match goal with
           | |- context [String.eqb w ?name] =>
               destruct (String.eqb_spec w name) as [-> | ?]
           end;
      intros [= <-];
      [ exists 0%nat | exists 1%nat | exists 2%nat | exists 3%nat | exists 4%nat
      | exists 5%nat | exists 6%nat | exists 7%nat | exists 8%nat | exists 9%nat ];
      split; reflexivity.
  - intros (i & Hi & ->).
    do 10 (destruct i as [| i]; [injection Hi as <-; reflexivity |]).
    destruct i; discriminate Hi.
Qed.

(** X1.  The constructor accepts exactly the ten documented window names
    and numbers them 1 to 10 in the documented order; the plugin it returns is
    neither dirty nor terminated, has no wavesurfer yet and remembers the
    range {-1, -1}.  For any other name it throws the error "Unknown window
    type: " followed by the name.  Two accepted options with the same window
    number have the same window name. *)
Theorem constructor_window (opts : Options) :
  (forall p : Plugin,
      constructor opts = Normal p <->
      exists i : nat,
        nth_error window_names i = Some (window opts)
        /\ p = fresh_plugin opts (Z.of_nat i + 1))
  /\ (forall p : Plugin,
         constructor opts = Normal p ->
         1 <= windowNum p <= 10 /\ options p = Some opts
         /\ update_needed p = false /\ terminated p = false /\ wavesurfer p = None
         /\ old_sS p = of_Z (-1) /\ old_eS p = of_Z (-1))
  /\ (~ In (window opts) window_names ->
      constructor opts = Throw (Error ("Unknown window type: " ++ window opts)))
  /\ (forall (opts' : Options) (p p' : Plugin),
         constructor opts = Normal p -> constructor opts' = Normal p' ->
         windowNum p = windowNum p' -> window opts = window opts').
Proof.
  assert (Hiff : forall (o : Options) (p : Plugin),
             constructor o = Normal p <->
             exists i : nat,
               nth_error window_names i = Some (window o)
               /\ p = fresh_plugin o (Z.of_nat i + 1)).
  { intros o p. unfold constructor. split.
    - destruct (windowNum_of (window o)) as [n |] eqn:Hn; [| discriminate].
      intros [= <-]. apply windowNum_of_names in Hn. destruct Hn as (i & Hi & ->).
      exists i. split; [exact Hi | reflexivity].
    - intros (i & Hi & ->).
      assert (Hn : windowNum_of (window o) = Some (Z.of_nat i + 1))
        by (apply windowNum_of_names; exists i; split; [exact Hi | reflexivity]).
      rewrite Hn. reflexivity. }
  split; [apply Hiff |]. split; [| split].
  - intros p Hp. apply Hiff in Hp. destruct Hp as (i & Hi & ->).
    assert (Hlt : (i < List.length window_names)%nat)
      by (apply nth_error_Some; congruence).
    cbn in Hlt. cbn. repeat split; lia.
  - intros Hout. unfold constructor.
    destruct (windowNum_of (window opts)) as [n |] eqn:Hn; [| reflexivity].
    exfalso. apply Hout. apply windowNum_of_names in Hn. destruct Hn as (i & Hi & _).
    apply (nth_error_In _ _ Hi).
  - intros opts' p p' Hp Hp' Hsame.
    apply Hiff in Hp. apply Hiff in Hp'.
    destruct Hp as (i & Hi & ->). destruct Hp' as (j & Hj & ->).
    cbn [windowNum fresh_plugin] in Hsame.
    assert (i = j) by lia. subst j. congruence.
Qed.

Lemma constructor_window_witness :
  (1 <= windowNum (fresh_plugin second_channel 7) <= 10)
  /\ ~ In "welch"%string window_names.
Proof.
  split.
  - apply (proj1 (proj2 (constructor_window second_channel))
             (fresh_plugin second_channel 7)).
    reflexivity.
  - cbn. intros H. repeat (destruct H as [H | H]; [discriminate H |]). exact H.
Defined.

(** ** The FFT size on every number *)

Lemma powerLoop_exit (num : number) (fuel e k : nat) :
  powerLoop fuel num e = Some k ->
  (Math_pow2 k <? num)%num = false
  /\ (e <= k)%nat
  /\ forall j : nat, (e <= j < k)%nat -> (Math_pow2 j <? num)%num = true.
Proof.
  revert e. induction fuel as [| fuel IH]; intros e; cbn [powerLoop]; [discriminate |].
  destruct (Math_pow2 e <? num)%num eqn:Hlt.
  - intros Hk. destruct (IH (S e) Hk) as (Hexit & Hle & Hbelow).
    split; [exact Hexit |]. split; [lia |].
    intros j Hj. destruct (Nat.eq_dec j e) as [-> | Hne]; [exact Hlt |].
    apply Hbelow. lia.
  - intros [= <-]. split; [exact Hlt |]. split; [lia |]. intros j Hj. lia.
Qed.

Lemma calcClosestPowerOf2Gt_exit (num : number) :
  exists k : nat,
    calcClosestPowerOf2Gt num = Math_pow2 k
    /\ (Math_pow2 k <? num)%num = false
    /\ forall j : nat, (j < k)%nat -> (Math_pow2 j <? num)%num = true.
Proof.
  unfold calcClosestPowerOf2Gt.
  destruct (powerLoop powerLoop_fuel num 0) as [k |] eqn:Hk.
  - destruct (powerLoop_exit num _ _ _ Hk) as (Hexit & _ & Hbelow).
    exists k. split; [reflexivity |]. split; [exact Hexit |].
    intros j Hj. apply Hbelow. lia.
  - exfalso. exact (powerLoop_total num Hk).
Qed.

Lemma ltb_of_Z_below (a b : Z) (num : number) :
  b <= a -> (of_Z a <? num)%num = true -> (of_Z b <? num)%num = true.
Proof.
  intros Hba. unfold of_Z. destruct num as [q | | |]; try (intros; assumption).
  rewrite !ltb_fin. intros Ha.
  apply Qle_lt_trans with (inject_Z a); [rewrite <- Zle_Qle; exact Hba | exact Ha].
Qed.

Lemma pow2_le_iff (j k : nat) : pow2 j <= pow2 k <-> (j <= k)%nat.
Proof.
  unfold pow2. rewrite <- Z.pow_le_mono_r_iff by lia. lia.
Qed.

(** X2.  [calcClosestPowerOf2Gt] returns on every number, NaN and the
    infinities included, and its result is never below its argument.  A power
    of two up to 2^1023 is returned as it is (the result is the closest power
    that is greater or equal, not greater); NaN and every number up to 1
    give 1; +Infinity gives Infinity.  The FFT size of a request is therefore
    always Infinity or a power of two from 2^9 to 2^1023, and it is Infinity
    exactly when sampleRate x windowSizeInSecs is above 2^1023. *)
Theorem fftN_on_every_number (sampleRate windowSizeInSecs num : number) :
  (calcClosestPowerOf2Gt num <? num)%num = false
  /\ (forall k : nat, (k <= 1023)%nat ->
         calcClosestPowerOf2Gt (of_Z (pow2 k)) = of_Z (pow2 k))
  /\ calcClosestPowerOf2Gt NaN = of_Z 1
  /\ calcClosestPowerOf2Gt PInf = PInf
  /\ (forall q : Q, (q <= 1)%Q -> calcClosestPowerOf2Gt (Fin q) = of_Z 1)
  /\ (fftN_of sampleRate windowSizeInSecs = PInf
      \/ exists k : nat,
           (9 <= k <= 1023)%nat /\ fftN_of sampleRate windowSizeInSecs = of_Z (pow2 k))
  /\ (fftN_of sampleRate windowSizeInSecs = PInf
      <-> (of_Z (pow2 1023) <? sampleRate * windowSizeInSecs)%num = true).
Proof.
  assert (Hone : forall n : number,
             (Math_pow2 0 <? n)%num = false -> calcClosestPowerOf2Gt n = of_Z 1).
  { intros n Hn. unfold calcClosestPowerOf2Gt, powerLoop_fuel. cbn [powerLoop].
    rewrite Hn. reflexivity. }
  assert (Hinf : forall n : number,
             calcClosestPowerOf2Gt n = PInf
             <-> (of_Z (pow2 1023) <? n)%num = true).
  { intros n. destruct (calcClosestPowerOf2Gt_exit n) as (k & Hk & Hexit & Hbelow).
    rewrite Hk. split.
    - intros Hpinf. destruct (le_lt_dec k 1023) as [Hsmall | Hlarge].
      + rewrite (Math_pow2_small k Hsmall) in Hpinf. discriminate Hpinf.
      + rewrite <- (Math_pow2_small 1023) by lia. apply Hbelow. lia.
    - intros Habove. destruct (le_lt_dec k 1023) as [Hsmall | Hlarge].
      + exfalso. rewrite (Math_pow2_small k Hsmall) in Hexit.
        rewrite (ltb_of_Z_below (pow2 1023) (pow2 k) n) in Hexit;
          [discriminate Hexit | apply pow2_le_iff; exact Hsmall | exact Habove].
      + apply Math_pow2_large. exact Hlarge. }
  split; [| split; [| split; [| split; [| split; [| split]]]]].
  - destruct (calcClosestPowerOf2Gt_exit num) as (k & -> & Hexit & _). exact Hexit.
  - intros k Hk.
    destruct (calcClosestPowerOf2Gt_spec (inject_Z (pow2 k))) as (j & Hj & Hreach & Hleast).
    { rewrite <- Zle_Qle. apply pow2_le_iff. exact Hk. }
    rewrite <- Zle_Qle in Hreach. apply pow2_le_iff in Hreach.
    assert (Hjk : (j <= k)%nat) by (apply Hleast; apply Qle_refl).
    unfold of_Z in *. rewrite Hj. replace j with k by lia. reflexivity.
  - apply Hone. reflexivity.
  - apply Hinf. reflexivity.
  - intros q Hq. apply Hone. apply ltb_fin_false. exact Hq.
  - unfold fftN_of.
    destruct (calcClosestPowerOf2Gt_exit (sampleRate * windowSizeInSecs)%num)
      as (k & -> & _ & _).
    destruct (le_lt_dec k 1023) as [Hsmall | Hlarge].
    + rewrite (Math_pow2_small k Hsmall). right. unfold of_Z at 1 2.
      destruct (Fin (inject_Z (pow2 k)) <? Fin (inject_Z 512))%num eqn:Hlt.
      * exists 9%nat. split; [lia | reflexivity].
      * apply ltb_fin_false in Hlt. rewrite <- Zle_Qle in Hlt.
        change 512 with (pow2 9) in Hlt. apply pow2_le_iff in Hlt.
        exists k. split; [lia | reflexivity].
    + rewrite (Math_pow2_large k Hlarge). left. reflexivity.
  - rewrite <- Hinf. unfold fftN_of.
    destruct (calcClosestPowerOf2Gt (sampleRate * windowSizeInSecs)%num <? 512)%num eqn:Hlt.
    + split; [discriminate |]. intros Hpinf. rewrite Hpinf in Hlt. discriminate Hlt.
    + reflexivity.
Qed.

Lemma fftN_on_every_number_witness :
  calcClosestPowerOf2Gt (of_Z (pow2 10)) = of_Z (pow2 10)
  /\ calcClosestPowerOf2Gt (Fin (1 # 2)) = of_Z 1.
Proof.
  split.
  - apply (proj1 (proj2 (fftN_on_every_number NaN NaN NaN)) 10%nat). lia.
  - apply (proj1 (proj2 (proj2 (proj2 (proj2 (fftN_on_every_number NaN NaN NaN)))))
             (1 # 2)).
    vm_compute. discriminate.
Defined.

(** ** The padded samples as one slice of the signal *)

Section Slices.

Context {A : Type}.

Lemma subarray_of_Z (l : list A) (a b : Z) :
  0 <= a <= b -> b <= Z.of_nat (List.length l) ->
  subarray l (of_Z a) (of_Z b) = firstn (Z.to_nat (b - a)) (skipn (Z.to_nat a) l).
Proof.
  intros Ha Hb. unfold subarray.
  rewrite !relativeIndex_of_Z by lia.
  rewrite Z.max_l by lia. reflexivity.
Qed.

(** Two slices that touch make one slice. *)
Lemma slices_touch (l : list A) (i a b : nat) :
  (i + a <= List.length l)%nat ->
  firstn a (skipn i l) ++ firstn b (skipn (i + a) l) = firstn (a + b) (skipn i l).
Proof.
  intros Hfit.
  replace (skipn (i + a) l) with (skipn a (skipn i l))
    by (rewrite skipn_skipn; f_equal; lia).
  set (m := skipn i l).
  assert (Hm : (a <= List.length m)%nat) by (unfold m; rewrite length_skipn; lia).
  rewrite <- (firstn_skipn a m) at 3.
  assert (Hlen : List.length (firstn a m) = a) by (rewrite length_firstn; lia).
  rewrite <- Hlen at 3. rewrite firstn_app_2. reflexivity.
Qed.

End Slices.

Lemma left_padding_slice (buffer : list sample) (sS : Z) (w : number) :
  0 <= sS <= Z.of_nat (List.length buffer) ->
  let total := Z.of_nat (List.length buffer) in
  left_padding_of buffer (of_Z sS) w
  = firstn (Z.to_nat (leftPad sS total w)) (skipn (Z.to_nat (sS - leftPad sS total w)) buffer).
Proof.
  intros HsS total. unfold left_padding_of, leftPad.
  destruct (of_Z sS >? w / 2)%num; [| reflexivity].
  unfold subarray. fold total. rewrite relativeIndex_of_Z by exact HsS.
  pose proof (relativeIndex_bounds total (of_Z sS - w / 2)%num ltac:(subst total; lia))
    as Hidx.
  set (idx := relativeIndex total (of_Z sS - w / 2)%num) in *.
  destruct (Z.le_gt_cases idx sS) as [Hle | Hgt].
  - replace (Z.max 0 (sS - idx)) with (sS - idx) by lia.
    replace (Z.max (sS - idx) 0) with (sS - idx) by lia.
    replace (sS - (sS - idx)) with idx by lia. reflexivity.
  - replace (Z.max 0 (sS - idx)) with 0 by lia.
    replace (Z.max (sS - idx) 0) with 0 by lia. reflexivity.
Qed.

Lemma right_padding_slice (buffer : list sample) (eS : Z) (k : nat) :
  0 <= eS <= Z.of_nat (List.length buffer) -> (1 <= k)%nat ->
  Z.of_nat (List.length buffer) < 2 ^ 52 ->
  let total := Z.of_nat (List.length buffer) in
  0 <= rightPad eS total (pow2 k)
  /\ eS + rightPad eS total (pow2 k) <= total
  /\ right_padding_of buffer (of_Z eS) (of_Z (pow2 k))
     = firstn (Z.to_nat (rightPad eS total (pow2 k))) (skipn (Z.to_nat eS) buffer).
Proof.
  intros HeS Hk Hsmall total.
  pose proof (right_padding_length buffer eS k HeS Hk Hsmall) as Hlen. fold total in Hlen.
  destruct (pow2_half k Hk) as [Heven Hhalf].
  assert (Hbounds : 0 <= rightPad eS total (pow2 k)
                    /\ eS + rightPad eS total (pow2 k) <= total).
  { unfold rightPad. destruct (Z.ltb_spec (eS + pow2 k / 2 - 1) total); lia. }
  split; [apply Hbounds |]. split; [apply Hbounds |].
  unfold right_padding_of in *.
  destruct (of_Z eS + of_Z (pow2 k) / 2 - 1 <? of_nat (List.length buffer))%num.
  - unfold subarray in *. rewrite relativeIndex_of_Z in * by exact HeS.
    rewrite length_firstn, length_skipn in Hlen.
    set (n := Z.to_nat (Z.max (relativeIndex (Z.of_nat (List.length buffer))
                                 (of_Z eS + of_Z (pow2 k) / 2 - 1)%num - eS) 0)) in *.
    assert (Hn : (n <= List.length buffer - Z.to_nat eS)%nat).
    { pose proof (relativeIndex_bounds (Z.of_nat (List.length buffer))
                    (of_Z eS + of_Z (pow2 k) / 2 - 1)%num (Nat2Z.is_nonneg _)).
      subst n. lia. }
    rewrite Nat.min_l in Hlen by exact Hn.
    rewrite <- Hlen, Nat2Z.id. reflexivity.
  - cbn [List.length] in Hlen. rewrite <- Hlen. reflexivity.
Qed.

(** X3.  For a range 0 <= startSample <= endSample <= totalSamples in a
    signal of fewer than 2^52 samples, any window size and an FFT size 2^k
    (k >= 1), the buffer sent to the worker is one contiguous slice of the
    channel: the samples from index startSample - leftPad up to endSample +
    rightPad.  The context is adjacent to the visible range on both sides and
    the slice never leaves the signal. *)
Theorem paddedSamples_contiguous (buffer : list sample) (sS eS : Z) (w : number) (k : nat) :
  0 <= sS <= eS -> eS <= Z.of_nat (List.length buffer) -> (1 <= k)%nat ->
  Z.of_nat (List.length buffer) < 2 ^ 52 ->
  let total := Z.of_nat (List.length buffer) in
  let first := sS - leftPad sS total w in
  let last := eS + rightPad eS total (pow2 k) in
  0 <= first /\ first <= sS /\ eS <= last /\ last <= total
  /\ paddedSamples_of buffer (of_Z sS) (of_Z eS) w (of_Z (pow2 k))
     = Some (subarray buffer (of_Z first) (of_Z last)).
Proof.
  intros Hs He Hk Hsmall total first last.
  pose proof (leftPad_bounds sS total w ltac:(lia) ltac:(subst total; lia)) as HL.
  pose proof (left_padding_slice buffer sS w ltac:(lia)) as Hleft.
  destruct (right_padding_slice buffer eS k) as (HR0 & HR1 & Hright);
    [lia | exact Hk | exact Hsmall |].
  cbv zeta in Hleft. fold total in HR0, HR1, Hright, Hleft.
  repeat split; try (subst first last; lia).
  rewrite paddedSamples_concat, Hleft, Hright.
  rewrite (subarray_of_Z buffer sS eS) by lia.
  rewrite (subarray_of_Z buffer first last) by (subst first last total; lia).
  f_equal. subst first last.
  set (L := leftPad sS total w) in *. set (R := rightPad eS total (pow2 k)) in *.
  replace (Z.to_nat eS) with (Z.to_nat sS + Z.to_nat (eS - sS))%nat by lia.
  rewrite (slices_touch buffer (Z.to_nat sS) (Z.to_nat (eS - sS)) (Z.to_nat R))
    by (subst total; lia).
  replace (Z.to_nat sS) with (Z.to_nat (sS - L) + Z.to_nat L)%nat at 1 by lia.
  rewrite (slices_touch buffer (Z.to_nat (sS - L)) (Z.to_nat L)) by (subst total; lia).
  f_equal. lia.
Qed.

Lemma paddedSamples_contiguous_witness :
  let buffer := repeat 0%Q 2000 in
  paddedSamples_of buffer (of_Z 1000) (of_Z 1200) (Fin (441 # 2)) (of_Z (pow2 9))
  = Some (subarray buffer
            (of_Z (1000 - leftPad 1000 (Z.of_nat (List.length buffer)) (Fin (441 # 2))))
            (of_Z (1200 + rightPad 1200 (Z.of_nat (List.length buffer)) (pow2 9)))).
Proof.
  apply (paddedSamples_contiguous (repeat 0%Q 2000) 1000 1200 (Fin (441 # 2)) 9).
  - lia.
  - rewrite repeat_length. lia.
  - lia.
  - rewrite repeat_length. lia.
Defined.

(** ** The range inside the signal, and the range that is no number *)

Lemma div_fin (x y : Q) : ~ (y == 0)%Q -> (Fin x / Fin y)%num = round64 (x / y).
Proof.
  intros Hy. unfold Num.div.
  destruct (Qeq_bool y 0) eqn:Hzero; [| reflexivity].
  apply Qeq_bool_iff in Hzero. contradiction.
Qed.

Lemma mul_fin (x y : Q) : (Fin x * Fin y)%num = round64 (x * y).
Proof. reflexivity. Qed.

Lemma add_fin (x y : Q) : (Fin x + Fin y)%num = round64 (x + y).
Proof. reflexivity. Qed.

Lemma Qdiv_le_one (x y : Q) : (0 < y)%Q -> (x <= y)%Q -> (x / y <= 1)%Q.
Proof.
  intros Hy Hxy. apply Qle_shift_div_r; [exact Hy |]. rewrite Qmult_1_l. exact Hxy.
Qed.

Lemma Qdiv_nonneg (x y : Q) : (0 <= x)%Q -> (0 < y)%Q -> (0 <= x / y)%Q.
Proof.
  intros Hx Hy. apply Qle_shift_div_l; [exact Hy |]. rewrite Qmult_0_l. exact Hx.
Qed.

Lemma Qmult_le_one (r t : Q) : (0 <= t)%Q -> (r <= 1)%Q -> (r * t <= t)%Q.
Proof.
  intros Ht Hr. rewrite <- (Qmult_1_l t) at 2. apply Qmult_le_compat_r; assumption.
Qed.

(** X4.  When the scroll geometry is finite and sound (0 <= scrollLeft,
    0 <= clientWidth, scrollLeft + clientWidth <= scrollWidth, 0 <
    scrollWidth), the range of a tick lies inside the signal: 0 <=
    startSample <= endSample <= totalSamples.  It starts at 0 when nothing is
    scrolled away and ends at totalSamples when the view reaches the end of
    the container.  The roundings of the four operations keep the order:
    scrollLeft and scrollWidth are doubles, as every number of the host is,
    and the signal has fewer than 2^53 samples, as every typed array has. *)
Theorem sampleRange_within (h : Host) (n : nat) (l e v : Q) :
  scrollLeft h = Fin l -> scrollWidth h = Fin e -> clientWidth h = Fin v ->
  is_double l -> is_double e -> Z.of_nat n < 2 ^ 53 ->
  (0 <= l)%Q -> (0 <= v)%Q -> (l + v <= e)%Q -> (0 < e)%Q ->
  exists a b : Z,
    sampleRange h (of_nat n) = (of_Z a, of_Z b)
    /\ 0 <= a /\ a <= b /\ b <= Z.of_nat n
    /\ ((l == 0)%Q -> a = 0)
    /\ ((l + v == e)%Q -> b = Z.of_nat n).
Proof.
  intros Hl He Hv Hdl Hde Hn Hl0 Hv0 Hfit Hpos.
  unfold is_double in Hdl, Hde.
  assert (Hne : ~ (e == 0)%Q).
  { intros Heq. rewrite Heq in Hpos. exact (Qlt_irrefl 0 Hpos). }
  set (total := inject_Z (Z.of_nat n)).
  assert (Htotal : (0 <= total)%Q).
  { unfold total. rewrite <- (Zle_Qle 0). lia. }
  assert (Hdt : round64 total = Fin total) by (apply round64_of_Z; lia).
  assert (Hone : round64 1 = Fin 1) by (apply (round64_of_Z 1); lia).
  assert (Hsum0 : (0 <= l + v)%Q).
  { rewrite <- (Qplus_0_r 0). apply Qplus_le_compat; assumption. }
  assert (Hlsum : (l <= l + v)%Q).
  { rewrite <- (Qplus_0_r l) at 1. apply Qplus_le_r. exact Hv0. }
  (* the start *)
  destruct (round64_mono (l / e) 1 1) as (r1 & Hr1 & Hr1lo & Hr1hi);
    [apply Qdiv_nonneg; assumption
    | apply Qdiv_le_one; [exact Hpos | apply Qle_trans with (l + v)%Q; assumption]
    | exact Hone |].
  destruct (round64_mono (r1 * total) total total) as (a' & Ha' & Ha'lo & Ha'hi);
    [apply Qmult_le_0_compat; assumption
    | apply Qmult_le_one; assumption
    | exact Hdt |].
  (* the end *)
  destruct (round64_mono (l + v) e (Qred e)) as (s & Hs & Hslo & Hshi);
    [exact Hsum0 | exact Hfit | exact Hde |].
  rewrite Qred_correct in Hshi.
  assert (Hls : (l <= s)%Q).
  { destruct (round64_mono l (l + v) s Hl0 Hlsum Hs) as (rl & Hrl & _ & Hrls).
    rewrite Hdl in Hrl. apply Fin_inj in Hrl. subst rl.
    rewrite Qred_correct in Hrls. exact Hrls. }
  destruct (round64_mono (s / e) 1 1) as (r2 & Hr2 & Hr2lo & Hr2hi);
    [apply Qdiv_nonneg; assumption | apply Qdiv_le_one; assumption | exact Hone |].
  assert (Hr12 : (r1 <= r2)%Q).
  { destruct (round64_mono (l / e) (s / e) r2) as (r & Hr & _ & Hle);
      [apply Qdiv_nonneg; assumption | apply Qdiv_le_pos; assumption | exact Hr2 |].
    rewrite Hr1 in Hr. apply Fin_inj in Hr. subst r. exact Hle. }
  destruct (round64_mono (r2 * total) total total) as (b' & Hb' & Hb'lo & Hb'hi);
    [apply Qmult_le_0_compat; assumption
    | apply Qmult_le_one; assumption
    | exact Hdt |].
  assert (Hab : (a' <= b')%Q).
  { destruct (round64_mono (r1 * total) (r2 * total) b') as (r & Hr & _ & Hle);
      [apply Qmult_le_0_compat; assumption
      | apply Qmult_le_compat_r; assumption
      | exact Hb' |].
    rewrite Ha' in Hr. apply Fin_inj in Hr. subst r. exact Hle. }
  exists (Qfloor a'), (Qfloor b').
  split.
  { unfold sampleRange. rewrite Hl, He, Hv. unfold of_nat, of_Z. fold total.
    rewrite add_fin, Hs, !div_fin, Hr1, Hr2, !mul_fin, Ha', Hb' by exact Hne.
    reflexivity. }
  split; [rewrite <- (Qfloor_Z 0); apply Qfloor_resp_le; exact Ha'lo |].
  split; [apply Qfloor_resp_le; exact Hab |].
  split; [rewrite <- (Qfloor_Z (Z.of_nat n)); apply Qfloor_resp_le; exact Hb'hi |].
  split.
  - intros Hzero.
    assert (Hq : (l / e == 0)%Q) by (rewrite Hzero; unfold Qdiv; apply Qmult_0_l).
    rewrite (round64_comp _ _ Hq) in Hr1.
    assert (Hr10 : r1 = 0%Q) by (apply Fin_inj; rewrite <- Hr1; reflexivity).
    subst r1.
    assert (Hp : (0 * total == 0)%Q) by apply Qmult_0_l.
    rewrite (round64_comp _ _ Hp) in Ha'.
    assert (Ha0 : a' = 0%Q) by (apply Fin_inj; rewrite <- Ha'; reflexivity).
    subst a'. reflexivity.
  - intros Hfull.
    rewrite (round64_comp _ _ Hfull), Hde in Hs. apply Fin_inj in Hs. subst s.
    assert (Hq : (Qred e / e == inject_Z 1)%Q).
    { rewrite Qred_correct. change (inject_Z 1) with 1%Q. field. exact Hne. }
    rewrite (round64_integer _ 1 Hq) in Hr2 by lia.
    apply Fin_inj in Hr2. subst r2.
    assert (Hp : (inject_Z 1 * total == total)%Q) by apply Qmult_1_l.
    rewrite (round64_comp _ _ Hp), Hdt in Hb'. apply Fin_inj in Hb'. subst b'.
    apply Qfloor_Z.
Qed.

Lemma sampleRange_within_witness :
  exists a b : Z,
    sampleRange (viewport 500 1000) (of_nat 2000) = (of_Z a, of_Z b)
    /\ 0 <= a /\ a <= b /\ b <= Z.of_nat 2000
    /\ ((inject_Z 500 == 0)%Q -> a = 0)
    /\ ((inject_Z 500 + inject_Z 1000 == inject_Z 2000)%Q -> b = Z.of_nat 2000).
Proof.
  apply (sampleRange_within (viewport 500 1000) 2000
           (inject_Z 500) (inject_Z 2000) (inject_Z 1000)).
  - reflexivity.
  - reflexivity.
  - reflexivity.
  - vm_compute. reflexivity.
  - vm_compute. reflexivity.
  - lia.
  - vm_compute. discriminate.
  - vm_compute. discriminate.
  - vm_compute. discriminate.
  - vm_compute. reflexivity.
Defined.

Lemma sampleRange_nan (h : Host) (nS : number) (l e : Q) :
  scrollLeft h = Fin l -> scrollWidth h = Fin e -> (l == 0)%Q -> (e == 0)%Q ->
  fst (sampleRange h nS) = NaN.
Proof.
  intros Hl He Hl0 He0. unfold sampleRange. cbn [fst]. rewrite Hl, He.
  unfold Num.div.
  assert (Hz : Qeq_bool e 0 = true) by (apply Qeq_bool_iff; exact He0).
  rewrite Hz. unfold sgn.
  assert (Hs : (l ?= 0)%Q = Eq) by (apply Qeq_alt; exact Hl0).
  rewrite Hs. reflexivity.
Qed.

(** X5.  In a container of scroll width 0 scrolled to 0 (one that is not
    laid out), the start of the range is NaN, which equals nothing, itself
    included: the same-range test never skips.  A live plugin whose channel
    exists sends a request on every dirty tick there, so two ticks over the
    identical viewport with a redraw event in between send two requests. *)
Theorem unlaid_container_redraws (h : Host) (s : Plugin) (d : AudioBuffer)
  (opts : Options) (buffer : list sample) (l e : Q) :
  scrollLeft h = Fin l -> scrollWidth h = Fin e -> (l == 0)%Q -> (e == 0)%Q ->
  decodedData h = Some d ->
  live s -> update_needed s = true -> options s = Some opts ->
  nth_error (channelData d) (channel opts) = Some buffer ->
  let first := render h s in
  let second := render h (plugin_of (onRedraw (plugin_of first))) in
  old_sS (plugin_of first) = NaN
  /\ (forall s' : Plugin, sameRange h d s' = false)
  /\ tells_in (effects_of first) = 1%nat
  /\ tells_in (effects_of second) = 1%nat.
Proof.
  intros Hl He Hl0 He0 Hdata (Hterm & Hws & Hwr & Hopt & Hwk) Hdirty Hopts Hch first second.
  pose proof (sampleRange_nan h (of_nat (ab_length d)) l e Hl He Hl0 He0) as Hnan.
  assert (Hnever : forall s' : Plugin, sameRange h d s' = false).
  { intros s'. unfold sameRange. rewrite Hnan. reflexivity. }
  assert (Hfirst : first
                   = (Normal tt,
                      drawing h (fst (sampleRange h (of_nat (ab_length d))))
                        (snd (sampleRange h (of_nat (ab_length d)))) s,
                      [Tell (request_of h s d opts buffer
                               (fst (sampleRange h (of_nat (ab_length d))))
                               (snd (sampleRange h (of_nat (ab_length d))))
                               (left_padding_of buffer
                                  (fst (sampleRange h (of_nat (ab_length d))))
                                  (windowSizeInSecs opts * sampleRate d)%num
                                ++ subarray buffer
                                     (fst (sampleRange h (of_nat (ab_length d))))
                                     (snd (sampleRange h (of_nat (ab_length d))))
                                ++ right_padding_of buffer
                                     (snd (sampleRange h (of_nat (ab_length d))))
                                     (fftN_of (sampleRate d) (windowSizeInSecs opts))))])).
  { subst first. apply (render_submits h s d opts buffer); auto. }
  split; [rewrite Hfirst; cbn; exact Hnan |].
  split; [exact Hnever |].
  split; [rewrite Hfirst; reflexivity |].
  subst second. rewrite Hfirst. cbn [plugin_of fst snd onRedraw modify].
  rewrite (render_submits h _ d opts buffer); auto.
Qed.

Lemma unlaid_container_redraws_witness :
  let first := render hidden_viewport (dirty_plugin defaultOptions) in
  let second := render hidden_viewport (plugin_of (onRedraw (plugin_of first))) in
  old_sS (plugin_of first) = NaN
  /\ (forall s' : Plugin, sameRange hidden_viewport (silence 2000 16000) s' = false)
  /\ tells_in (effects_of first) = 1%nat
  /\ tells_in (effects_of second) = 1%nat.
Proof.
  apply (unlaid_container_redraws hidden_viewport (dirty_plugin defaultOptions)
           (silence 2000 16000) defaultOptions (repeat 0%Q 2000)
           (inject_Z 0) (inject_Z 0));
    try reflexivity.
  repeat split; discriminate.
Defined.

(** ** What every method keeps *)

Lemma same_references_refl (s : Plugin) : same_references s s.
Proof. unfold same_references. repeat split. Qed.

Lemma render_missing_channel (h : Host) (s : Plugin) (d : AudioBuffer) (opts : Options) :
  terminated s = false -> update_needed s = true -> wavesurfer s <> None ->
  decodedData h = Some d -> sameRange h d s = false ->
  wrapper s <> None -> options s = Some opts ->
  nth_error (channelData d) (channel opts) = None ->
  render h s
  = (Throw IndexSizeError,
     drawing h (fst (sampleRange h (of_nat (ab_length d))))
       (snd (sampleRange h (of_nat (ab_length d)))) s,
     []).
Proof.
  intros Hterm Hdirty Hws Hdata Hsame Hwr Hopts Hch.
  unfold render. run. rewrite Hterm, Hdirty. cbn [negb].
  destruct (wavesurfer s); [| congruence].
  rewrite Hdata. fold (sameRange h d s). rewrite Hsame.
  destruct (wrapper s); [| congruence]. cbn [app].
  rewrite Hopts. cbn [app]. rewrite Hch. reflexivity.
Qed.

(** A tick writes [update_needed], the last range and the canvas size, and
    nothing else. *)
Lemma render_keeps (h : Host) (s : Plugin) :
  same_references s (plugin_of (render h s))
  /\ imageData (plugin_of (render h s)) = imageData s
  /\ allocated (plugin_of (render h s)) = allocated s.
Proof.
  unfold render, same_references. run.
  destruct (terminated s) eqn:Hterm; [cbn; repeat split; congruence |].
  destruct (update_needed s) eqn:Hdirty; cbn [negb]; [| cbn; repeat split; congruence].
  destruct (wavesurfer s) eqn:Hws; [| cbn; repeat split; congruence].
  destruct (decodedData h) as [d |]; [| cbn; repeat split; congruence].
  destruct (_ && _); [cbn; repeat split; congruence |].
  destruct (wrapper s) eqn:Hwr; cbn [app]; [| cbn; repeat split; congruence].
  destruct (options s) as [opts |] eqn:Hopts; cbn [app];
    [| cbn; repeat split; congruence].
  destruct (nth_error (channelData d) (channel opts)) as [buffer |]; cbn [app];
    [| cbn; repeat split; congruence].
  rewrite paddedSamples_concat. cbn [app].
  destruct (spectroWorker s) eqn:Hwk; cbn; repeat split; congruence.
Qed.

Lemma onResponse_keeps (img : list Z) (s : Plugin) :
  same_references s (plugin_of (onResponse img s))
  /\ canvas (plugin_of (onResponse img s)) = canvas s
  /\ (sized (imageData s) -> sized (imageData (plugin_of (onResponse img s)))).
Proof.
  destruct (onResponse_plugin img s) as (data & -> & Hlen).
  unfold same_references, sized, ensured in *.
  destruct (resized s && negb (unfit s)); cbn in *.
  - rewrite repeat_length in Hlen. auto 10.
  - rewrite Hlen. auto 10.
Qed.

Lemma destroy_plugin (s : Plugin) :
  plugin_of (destroy s)
  = match spectroWorker s with
    | Some _ => set_spectroWorker None (released s)
    | None => released s
    end.
Proof.
  destruct (spectroWorker s) eqn:Hwk.
  - rewrite destroy_live by congruence. reflexivity.
  - rewrite destroy_dead by exact Hwk. reflexivity.
Qed.

Lemma step_consistent (w w' : World) :
  consistent (plugin w) -> step w w' -> consistent (plugin w').
Proof.
  unfold consistent, live. intros (Hnum & Hsized & Hrefs) Hstep.
  destruct Hstep as [w n h Hframes | w n img Hflight | w | w]; cbn [after plugin].
  - destruct (render_keeps h (plugin w)) as ((-> & -> & -> & -> & -> & ->) & -> & _).
    auto.
  - destruct (onResponse_keeps img (plugin w))
      as ((-> & -> & -> & -> & -> & ->) & _ & Hkeep).
    auto.
  - cbn. auto.
  - rewrite destroy_plugin. unfold released. revert Hrefs.
    destruct (terminated (plugin w)), (spectroWorker (plugin w)) eqn:Hwk,
      (wrapper (plugin w)) eqn:Hwr;
      cbn; intuition congruence.
Qed.

Lemma reachable_consistent (w : World) : reachable w -> consistent (plugin w).
Proof.
  intros Hreach. induction Hreach as [opts p Hctor | w w' Hreach IH Hstep].
  - unfold constructor in Hctor.
    destruct (windowNum_of (window opts)) as [n |] eqn:Hn; [| discriminate].
    injection Hctor as <-.
    apply windowNum_of_names in Hn. destruct Hn as (i & Hi & ->).
    assert (Hlt : (i < List.length window_names)%nat)
      by (apply nth_error_Some; congruence).
    cbn in Hlt. unfold consistent, live, sized. cbn.
    rewrite repeat_length.
    repeat split; try lia; try discriminate.
  - exact (step_consistent w w' IH Hstep).
Qed.

(** X6.  In every state the loop can reach, the window number is one of
    1..10, the image buffer holds four bytes a pixel, and the four references
    (options, wrapper, worker, wavesurfer) are all set while the plugin is not
    terminated and all null once it is.  Hence [destroy] returns normally
    exactly when the plugin is not yet terminated, and then it has called
    unAll, wrapper.remove, kill and the base destroy, in this order, once
    each. *)
Theorem destroy_once (w : World) :
  reachable w ->
  consistent (plugin w)
  /\ (result_of (destroy (plugin w)) = Normal tt <-> terminated (plugin w) = false)
  /\ (terminated (plugin w) = false ->
      effects_of (destroy (plugin w)) = [UnAll; WrapperRemove; Kill; SuperDestroy])
  /\ (terminated (plugin w) = true ->
      destroy (plugin w) = (Throw TypeError, plugin w, [UnAll])).
Proof.
  intros Hreach. pose proof (reachable_consistent w Hreach) as Hcons.
  split; [exact Hcons |].
  destruct Hcons as (_ & _ & Hrefs). unfold live in Hrefs.
  destruct (terminated (plugin w)) eqn:Hterm.
  - destruct Hrefs as (Hopt & Hwr & Hwk & Hws).
    assert (Hdead : destroy (plugin w) = (Throw TypeError, plugin w, [UnAll])).
    { rewrite (destroy_dead _ Hwk), Hwr. unfold released. rewrite Hwr.
      f_equal. f_equal. revert Hterm Hopt Hws. generalize (plugin w) as p.
      intros p. destruct p. cbn. intros -> -> ->. reflexivity. }
    rewrite Hdead. cbn. repeat split; try discriminate; auto.
  - destruct Hrefs as (_ & Hws & Hwr & Hopt & Hwk).
    rewrite (destroy_live _ Hwk).
    destruct (wrapper (plugin w)); [| congruence].
    cbn. repeat split; auto; discriminate.
Qed.

Lemma destroy_once_witness :
  consistent (plugin drawing_world)
  /\ (result_of (destroy (plugin drawing_world)) = Normal tt
      <-> terminated (plugin drawing_world) = false).
Proof.
  assert (Hreach : reachable drawing_world).
  { apply (reach_step redrawn_world).
    - apply (reach_step attached_world).
      + apply (reach_attach defaultOptions). reflexivity.
      + apply step_redraw.
    - apply (step_frame redrawn_world 0 (viewport 0 100)). reflexivity. }
  split.
  - exact (proj1 (destroy_once drawing_world Hreach)).
  - exact (proj1 (proj2 (destroy_once drawing_world Hreach))).
Defined.

(** ** Ticks that throw, and loops that stop *)

(** X7.  In every state the loop can reach, a tick can throw in one way
    only: an IndexSizeError from [getChannelData], when the [channel] option
    names a channel the decoded audio does not have.  It throws after the
    dirty flag is cleared, the range stored and the canvas resized, and it has
    sent nothing and requested no frame. *)
Theorem tick_throws_on_missing_channel (w : World) (h : Host) (e : error) :
  reachable w ->
  result_of (render h (plugin w)) = Throw e ->
  e = IndexSizeError
  /\ exists (d : AudioBuffer) (opts : Options),
       decodedData h = Some d
       /\ options (plugin w) = Some opts
       /\ nth_error (channelData d) (channel opts) = None
       /\ render h (plugin w)
          = (Throw IndexSizeError,
             drawing h (fst (sampleRange h (of_nat (ab_length d))))
               (snd (sampleRange h (of_nat (ab_length d)))) (plugin w),
             []).
Proof.
  intros Hreach Hthrow.
  destruct (reachable_consistent w Hreach) as (_ & _ & Hrefs).
  pose proof (render_tick h (plugin w)) as T.
  remember (render h (plugin w)) as out eqn:Hout.
  destruct T as [Hterm | Hterm Hclean | Hterm Hdirty Hws | Hterm Hdirty Hws Hdata
                | d Hterm Hdirty Hws Hdata Hsame
                | d e' s' Hterm Hdirty Hws Hdata Hsame Hcause _ _ _ _
                | d opts buffer padded Hterm Hdirty Hws Hdata Hsame];
    try discriminate Hthrow.
  - rewrite Hterm in Hrefs. destruct Hrefs as (_ & Hws' & _). contradiction.
  - rewrite Hterm in Hrefs. destruct Hrefs as (_ & _ & Hwr & Hopt & Hwk).
    destruct Hcause as [Hnone | [Hnone | [Hnone | (opts & Hopts & Hch)]]];
      try contradiction.
    pose proof (render_missing_channel h (plugin w) d opts
                  Hterm Hdirty Hws Hdata Hsame Hwr Hopts Hch) as Hrun.
    rewrite Hrun in Hout. injection Hout as -> -> .
    cbn in Hthrow. injection Hthrow as <-.
    split; [reflexivity |]. exists d, opts. auto.
Qed.

Lemma tick_throws_on_missing_channel_witness :
  let w := redrawn_with second_channel 7 in
  reachable w
  /\ result_of (render (viewport 0 100) (plugin w)) = Throw IndexSizeError
  /\ effects_of (render (viewport 0 100) (plugin w)) = []
  /\ update_needed (plugin_of (render (viewport 0 100) (plugin w))) = false.
Proof.
  intros w.
  assert (Hreach : reachable w).
  { apply (reach_step
             (after (onInit (set_wavesurfer (Some Ref) (fresh_plugin second_channel 7))) 0 0)).
    - apply (reach_attach second_channel). reflexivity.
    - apply step_redraw. }
  assert (Hthrow : result_of (render (viewport 0 100) (plugin w)) = Throw IndexSizeError)
    by (vm_compute; reflexivity).
  split; [exact Hreach |]. split; [exact Hthrow |].
  destruct (tick_throws_on_missing_channel w (viewport 0 100) IndexSizeError Hreach Hthrow)
    as (_ & d & opts & _ & _ & _ & Hrun).
  rewrite Hrun. split; reflexivity.
Defined.

Lemma stalled_step (w w' : World) :
  stalled w -> step w w' ->
  stalled w' /\ imageData (plugin w') = imageData (plugin w)
  /\ canvas (plugin w') = canvas (plugin w).
Proof.
  unfold stalled. intros [Hframes Hflight] Hstep.
  destruct Hstep as [w n h Hf | w n img Hi | w | w]; try congruence;
    cbn [after frames inFlight plugin].
  - cbn. repeat split; lia.
  - destruct (destroy_terminates (plugin w)) as (_ & _ & _ & H0 & H1).
    rewrite H0, H1, Hframes, Hflight, destroy_plugin. unfold released.
    destruct (spectroWorker (plugin w)), (wrapper (plugin w)); cbn; auto.
Qed.

Lemma stalled_steps (w w' : World) :
  stalled w -> steps w w' ->
  stalled w' /\ imageData (plugin w') = imageData (plugin w)
  /\ canvas (plugin w') = canvas (plugin w).
Proof.
  intros Hstalled Hsteps.
  induction Hsteps as [w | w w1 w2 Hstep Hsteps IH].
  - auto.
  - destruct (stalled_step w w1 Hstalled Hstep) as (Hstalled1 & Himg & Hcanvas).
    destruct (IH Hstalled1) as (H2 & Himg2 & Hcanvas2).
    split; [exact H2 |]. split; congruence.
Qed.

(** X8.  A tick that throws stops the loop for good.  In a reachable state
    with a frame queued, if the tick of that frame throws, then nothing is
    queued and nothing is in flight afterwards; and from such a state no
    sequence of events (redraw events, detach) ever runs a tick or a response
    again: the image buffer and the canvas stay as they are. *)
Theorem throwing_tick_stops_loop (w : World) (n : nat) (h : Host) (e : error) :
  reachable w -> frames w = S n ->
  result_of (render h (plugin w)) = Throw e ->
  let w1 := after (render h (plugin w)) n (inFlight w) in
  stalled w1
  /\ forall w2 : World,
       steps w1 w2 ->
       stalled w2 /\ imageData (plugin w2) = imageData (plugin w1)
       /\ canvas (plugin w2) = canvas (plugin w1).
Proof.
  intros Hreach Hframes Hthrow w1.
  pose proof (reachable_one w Hreach) as Hone.
  assert (Hstalled : stalled w1).
  { pose proof (render_tick h (plugin w)) as T.
    subst w1. unfold stalled, after. cbn [frames inFlight].
    destruct T; try discriminate Hthrow; cbn; lia. }
  split; [exact Hstalled |].
  intros w2 Hsteps. apply (stalled_steps w1 w2 Hstalled Hsteps).
Qed.

Lemma throwing_tick_stops_loop_witness :
  stalled (after (render (viewport 0 100) (plugin (redrawn_with second_channel 7)))
             0 (inFlight (redrawn_with second_channel 7))).
Proof.
  assert (Hreach : reachable (redrawn_with second_channel 7)).
  { apply (reach_step
             (after (onInit (set_wavesurfer (Some Ref) (fresh_plugin second_channel 7))) 0 0)).
    - apply (reach_attach second_channel). reflexivity.
    - apply step_redraw. }
  assert (Hthrow : result_of (render (viewport 0 100)
                                (plugin (redrawn_with second_channel 7)))
                   = Throw IndexSizeError)
    by (vm_compute; reflexivity).
  exact (proj1 (throwing_tick_stops_loop (redrawn_with second_channel 7) 0
                  (viewport 0 100) IndexSizeError Hreach eq_refl Hthrow)).
Defined.

(** ** Loops that keep going *)

Lemma tick_hands_over (h : Host) (s : Plugin) :
  terminated s = false -> result_of (render h s) = Normal tt ->
  (frames_in (effects_of (render h s)) + tells_in (effects_of (render h s)) = 1)%nat.
Proof.
  intros Hterm Hret. pose proof (render_tick h s) as T.
  destruct T; try congruence; try discriminate Hret; reflexivity.
Qed.

(** X9.  As long as no method throws and [destroy] is not called, the loop
    never stalls and never doubles: in every such state the plugin is not
    terminated and exactly one thing is pending, either a queued animation
    frame or a request in flight. *)
Theorem running_loop_has_one_pending (w : World) :
  running w ->
  reachable w
  /\ terminated (plugin w) = false
  /\ (frames w + inFlight w = 1)%nat.
Proof.
  intros Hrun.
  induction Hrun as [opts p Hctor | w n h Hrun IH Hframes Hret
                    | w n img Hrun IH Hflight Hret | w Hrun IH].
  - split; [apply (reach_attach opts p Hctor) |].
    unfold constructor in Hctor.
    destruct (windowNum_of (window opts)); [| discriminate].
    injection Hctor as <-. cbn. auto.
  - destruct IH as (Hreach & Hterm & Hone).
    split; [apply (reach_step w); [exact Hreach | apply step_frame; exact Hframes] |].
    destruct (render_keeps h (plugin w)) as ((_ & _ & _ & _ & _ & Hkeep) & _).
    split; [cbn [after plugin]; congruence |].
    pose proof (tick_hands_over h (plugin w) Hterm Hret).
    cbn [after frames inFlight]. lia.
  - destruct IH as (Hreach & Hterm & Hone).
    split; [apply (reach_step w); [exact Hreach | apply step_response; exact Hflight] |].
    destruct (onResponse_keeps img (plugin w)) as ((_ & _ & _ & _ & _ & Hkeep) & _).
    split; [cbn [after plugin]; congruence |].
    destruct (response_effects img (plugin w)) as (H0 & _ & H1).
    specialize (H1 Hret). cbn [after frames inFlight]. lia.
  - destruct IH as (Hreach & Hterm & Hone).
    split; [apply (reach_step w); [exact Hreach | apply step_redraw] |].
    split; [exact Hterm |]. cbn. lia.
Qed.

Lemma running_loop_has_one_pending_witness :
  reachable drawing_world
  /\ terminated (plugin drawing_world) = false
  /\ (frames drawing_world + inFlight drawing_world = 1)%nat.
Proof.
  apply running_loop_has_one_pending.
  apply (running_frame redrawn_world 0 (viewport 0 100)).
  - apply (running_redraw attached_world).
    apply (running_attach defaultOptions). reflexivity.
  - reflexivity.
  - vm_compute. reflexivity.
Defined.

Lemma terminated_step (w w' : World) :
  terminated (plugin w) = true -> step w w' ->
  terminated (plugin w') = true
  /\ (inFlight w' <= inFlight w)%nat
  /\ (frames w' + inFlight w' <= frames w + inFlight w)%nat.
Proof.
  intros Hterm Hstep.
  destruct Hstep as [w n h Hframes | w n img Hflight | w | w];
    cbn [after frames inFlight plugin].
  - rewrite (render_terminated h _ Hterm). cbn. split; [exact Hterm | lia].
  - destruct (onResponse_keeps img (plugin w)) as ((_ & _ & _ & _ & _ & Hkeep) & _).
    destruct (response_effects img (plugin w)) as (H0 & H1 & _).
    split; [congruence | lia].
  - cbn. split; [exact Hterm | lia].
  - destruct (destroy_terminates (plugin w)) as (Hterm' & _ & _ & H0 & H1).
    split; [exact Hterm' | lia].
Qed.

(** X10.  Termination is final: once [terminated] is set, no event resets
    it, no request is ever sent to the worker again, and the pending work
    (queued frames and requests in flight) can only drain. *)
Theorem terminated_sends_nothing (w w' : World) :
  terminated (plugin w) = true -> steps w w' ->
  terminated (plugin w') = true
  /\ (inFlight w' <= inFlight w)%nat
  /\ (frames w' + inFlight w' <= frames w + inFlight w)%nat.
Proof.
  intros Hterm Hsteps.
  induction Hsteps as [w | w w1 w2 Hstep Hsteps IH].
  - auto.
  - destruct (terminated_step w w1 Hterm Hstep) as (Hterm1 & Hflight & Hsum).
    destruct (IH Hterm1) as (Hterm2 & Hflight2 & Hsum2).
    split; [exact Hterm2 | lia].
Qed.

Lemma terminated_sends_nothing_witness :
  let w := after (destroy (plugin drawing_world)) (frames drawing_world)
             (inFlight drawing_world) in
  let w' := after (onResponse [255; 0; 0; 255] (plugin w)) (frames w) 0 in
  terminated (plugin w') = true
  /\ (inFlight w' <= inFlight w)%nat
  /\ (frames w' + inFlight w' <= frames w + inFlight w)%nat.
Proof.
  intros w w'.
  apply (terminated_sends_nothing w w').
  - reflexivity.
  - apply (steps_more w w' w'); [| apply steps_none].
    apply (step_response w 0 [255; 0; 0; 255]). vm_compute. reflexivity.
Defined.

(** ** From the request to the picture *)

Lemma fresh_plugin_sized (opts : Options) (n : Z) : sized (imageData (fresh_plugin opts n)).
Proof. unfold sized. cbn [fresh_plugin imageData img_data img_width img_height].
  apply repeat_length. Qed.

(** X11.  A tick that draws resizes the canvas to the wrapper and asks the
    worker for an image of that size.  When the wrapper has pixels and the
    worker answers with exactly width x height x 4 values, the handler
    returns normally, the image it puts on the canvas has the requested
    dimensions and holds the values of the response clamped to bytes (the
    values themselves when they are bytes), and one animation frame is
    requested. *)
Theorem response_fills_canvas (h : Host) (s : Plugin) (d : AudioBuffer) (opts : Options)
  (buffer : list sample) (img : list Z) :
  terminated s = false -> update_needed s = true -> wavesurfer s <> None ->
  decodedData h = Some d -> sameRange h d s = false ->
  wrapper s <> None -> options s = Some opts -> spectroWorker s <> None ->
  nth_error (channelData d) (channel opts) = Some buffer ->
  sized (imageData s) ->
  0 < offsetWidth h -> 0 < offsetHeight h ->
  List.length img = Z.to_nat (offsetWidth h * offsetHeight h * 4) ->
  exists (rq : Request) (s1 s2 : Plugin),
    render h s = (Normal tt, s1, [Tell rq])
    /\ rq_imgWidth rq = offsetWidth h /\ rq_imgHeight rq = offsetHeight h
    /\ canvas_width (canvas s1) = offsetWidth h
    /\ canvas_height (canvas s1) = offsetHeight h
    /\ onResponse img s1
       = (Normal tt, s2, [PutImageData (imageData s2); RequestAnimationFrame])
    /\ img_width (imageData s2) = offsetWidth h
    /\ img_height (imageData s2) = offsetHeight h
    /\ img_data (imageData s2) = Uint8ClampedArray img
    /\ Forall (fun v => 0 <= v <= 255) (img_data (imageData s2))
    /\ (Forall (fun v => 0 <= v <= 255) img -> img_data (imageData s2) = img).
Proof.
  intros Hterm Hdirty Hws Hdata Hsame Hwr Hopts Hwk Hch Hsized Hwpos Hhpos Hlen.
  pose proof (render_submits h s d opts buffer
                Hterm Hdirty Hws Hdata Hsame Hwr Hopts Hwk Hch) as Hrun.
  cbv zeta in Hrun.
  set (s1 := drawing h (fst (sampleRange h (of_nat (ab_length d))))
               (snd (sampleRange h (of_nat (ab_length d)))) s) in *.
  assert (Hunfit : unfit s1 = false).
  { unfold unfit.
    change (canvas_width (canvas s1)) with (offsetWidth h).
    change (canvas_height (canvas s1)) with (offsetHeight h).
    destruct (Z.eqb_spec (offsetWidth h) 0); [lia |].
    destruct (Z.eqb_spec (offsetHeight h) 0); [lia |].
    apply Bool.andb_false_r. }
  assert (Hbuffer : img_width (imageData (ensured s1)) = offsetWidth h
                    /\ img_height (imageData (ensured s1)) = offsetHeight h
                    /\ List.length (img_data (imageData (ensured s1)))
                       = List.length img).
  { unfold ensured. rewrite Hunfit. destruct (resized s1) eqn:Hre; cbn [andb negb].
    - cbn [imageData set_imageData img_width img_height img_data].
      change (canvas_width (canvas s1)) with (offsetWidth h).
      change (canvas_height (canvas s1)) with (offsetHeight h).
      rewrite repeat_length, !Z.abs_eq, Hlen by lia. auto.
    - apply resized_sameSize in Hre. destruct Hre as [Hw Hh].
      change (canvas_width (canvas s1)) with (offsetWidth h) in Hw.
      change (canvas_height (canvas s1)) with (offsetHeight h) in Hh.
      change (imageData s1) with (imageData s) in *.
      unfold sized in Hsized. rewrite Hsized, Hw, Hh, Hlen. auto. }
  destruct Hbuffer as (Hw & Hh & Hfit).
  assert (Hdata' : img_data (filled img s1) = Uint8ClampedArray img).
  { cbn [filled with_data img_data]. rewrite skipn_all2 by lia. apply app_nil_r. }
  eexists. exists s1, (set_imageData (filled img s1) (ensured s1)).
  split; [exact Hrun |]. split; [reflexivity |]. split; [reflexivity |].
  split; [reflexivity |]. split; [reflexivity |].
  split; [rewrite onResponse_fits by (try exact Hunfit; lia); reflexivity |].
  cbn [imageData set_imageData].
  split; [exact Hw |]. split; [exact Hh |]. split; [exact Hdata' |].
  rewrite Hdata'. split; [apply Uint8ClampedArray_clamps |].
  apply Uint8ClampedArray_bytes.
Qed.

Lemma response_fills_canvas_witness :
  exists (rq : Request) (s1 s2 : Plugin),
    render tiny_viewport (dirty_plugin defaultOptions) = (Normal tt, s1, [Tell rq])
    /\ rq_imgWidth rq = 2 /\ rq_imgHeight rq = 1
    /\ canvas_width (canvas s1) = 2
    /\ canvas_height (canvas s1) = 1
    /\ onResponse [300; 0; -5; 255; 0; 255; 0; 255] s1
       = (Normal tt, s2, [PutImageData (imageData s2); RequestAnimationFrame])
    /\ img_width (imageData s2) = 2
    /\ img_height (imageData s2) = 1
    /\ img_data (imageData s2) = [255; 0; 0; 255; 0; 255; 0; 255].
Proof.
  destruct (response_fills_canvas tiny_viewport (dirty_plugin defaultOptions)
              (silence 2000 16000) defaultOptions (repeat 0%Q 2000)
              [300; 0; -5; 255; 0; 255; 0; 255])
    as (rq & s1 & s2 & H1 & H2 & H3 & H4 & H5 & H6 & H7 & H8 & H9 & _).
  - reflexivity.
  - reflexivity.
  - discriminate.
  - reflexivity.
  - vm_compute. reflexivity.
  - discriminate.
  - reflexivity.
  - discriminate.
  - reflexivity.
  - apply (fresh_plugin_sized defaultOptions 6).
  - reflexivity.
  - reflexivity.
  - reflexivity.
  - exists rq, s1, s2. repeat split; assumption.
Defined.

(** X12.  A tick that sends no request and returns normally leaves the
    canvas size, the stored range and the image buffer untouched: at most it
    clears the dirty flag.  In particular a wrapper that was resized while the
    visible range stayed the same is not picked up, whatever its new size. *)
Theorem quiet_tick_changes_nothing (h : Host) (s : Plugin) :
  tells_in (effects_of (render h s)) = 0%nat ->
  result_of (render h s) = Normal tt ->
  let s' := plugin_of (render h s) in
  (s' = s \/ s' = set_update_needed false s)
  /\ canvas s' = canvas s
  /\ old_sS s' = old_sS s /\ old_eS s' = old_eS s
  /\ imageData s' = imageData s
  /\ (terminated s = false -> effects_of (render h s) = [RequestAnimationFrame]).
Proof.
  intros Hquiet Hret s'. subst s'.
  pose proof (render_tick h s) as T.
  destruct T; try discriminate Hquiet; try discriminate Hret;
    cbn [plugin_of effects_of fst snd]; repeat split; auto; congruence.
Qed.

Lemma quiet_tick_changes_nothing_witness :
  let s := plugin_of (render (viewport 0 100) (dirty_plugin defaultOptions)) in
  let h := shrunk_viewport in
  canvas (plugin_of (render h (plugin_of (onRedraw s))))
  = canvas (plugin_of (onRedraw s))
  /\ canvas_width (canvas (plugin_of (onRedraw s))) = 800
  /\ offsetWidth h = 400.
Proof.
  intros s h.
  assert (Hquiet : tells_in (effects_of (render h (plugin_of (onRedraw s)))) = 0%nat)
    by (vm_compute; reflexivity).
  assert (Hret : result_of (render h (plugin_of (onRedraw s))) = Normal tt)
    by (vm_compute; reflexivity).
  split; [| split; reflexivity].
  exact (proj1 (proj2 (quiet_tick_changes_nothing h (plugin_of (onRedraw s)) Hquiet Hret))).
Defined.
